(** * OTDR loss analysis ([sor_analiz.py]): calibration, event table, summary

    A shallow embedding of the three core functions of [sor_analiz.py]
    ([auto_distance_factor], [extract_events_table], [summarize]) and of the
    mode dispatch of [main], followed by the properties the specification
    states about them.

    Numbers.  A Python [float] is an IEEE 754 binary64 value, and so is a
    primitive [float] of Rocq: the arithmetic and the comparisons below are
    the ones the interpreter performs, rounding, infinities and NaN included.
    A decimal literal such as [1.7] denotes the nearest binary64 value in both
    languages.  The numeric fields of the blocks are nullable real numbers;
    the source passes each through [float(...)], so a field is modelled by
    the float it converts to.

    Mappings.  The parsed blocks are read with [dict.get], which answers
    [None] both for an absent key and for a key bound to [None]; a nullable
    field is therefore an [option].  The row the builder emits is a [dict]
    literal: it is modelled by the record [Row.t], whose fields follow the
    literal, together with [row_items], the items of that literal in
    insertion order.

    Errors.  The operations of the source that may raise (float division,
    [max] of an empty iterable, indexing an empty list) return a [result];
    the functions are written in the corresponding error monad. *)

From Stdlib Require Import Floats ZArith String Bool List Lia.
Import ListNotations.

Set Warnings "-inexact-float".

Local Open Scope float_scope.

(** ** Python values and exceptions *)

Inductive PyError : Type :=
| ZeroDivisionError
| ValueError
| IndexError.

Inductive result (A : Type) : Type :=
| Ok (a : A)
| Raise (e : PyError).

Arguments Ok {A} a.
Arguments Raise {A} e.

Definition bind {A B : Type} (c : result A) (k : A -> result B) : result B :=
  match c with
  | Ok a => k a
  | Raise e => Raise e
  end.

Notation "x <- c ;; k" := (bind c (fun x => k))
  (at level 61, c at next level, right associativity).

(** The values a row of the event table can hold. *)
Inductive PyVal : Type :=
| PyNone
| PyInt (z : Z)
| PyFloat (f : float)
| PyStr (s : string).

(** Truth value of a float: every float but [0.0] and [-0.0] is true
    (NaN included). *)
Definition truthy (x : float) : bool := negb (x =? 0).

(** [float(v or 0.0)] for a nullable float [v]. *)
Definition or0 (v : option float) : float :=
  match v with
  | Some x => if truthy x then x else 0
  | None => 0
  end.

(** [s or ""] for a nullable string [s]. *)
Definition or_empty (s : option string) : string :=
  match s with
  | Some x => x
  | None => EmptyString
  end.

(** The chained comparison [lo < x < hi], that is [lo < x and x < hi]. *)
Definition chained_lt (lo x hi : float) : bool := (lo <? x) && (x <? hi).

(** [x / y] on floats: raises [ZeroDivisionError] when [y == 0]. *)
Definition py_div (x y : float) : result float :=
  if y =? 0 then Raise ZeroDivisionError else Ok (x / y).

(** The scan of the builtin [max]: the running maximum is replaced by an
    item only when [item > maximum]. *)
Fixpoint max_from (best : float) (xs : list float) : float :=
  match xs with
  | [] => best
  | x :: rest => max_from (if best <? x then x else best) rest
  end.

(** [max(xs, default=d)]. *)
Definition py_max_default (xs : list float) (d : float) : float :=
  match xs with
  | [] => d
  | x :: rest => max_from x rest
  end.

(** [max(xs)]: raises [ValueError] on an empty iterable. *)
Definition py_max (xs : list float) : result float :=
  match xs with
  | [] => Raise ValueError
  | x :: rest => Ok (max_from x rest)
  end.

(** [xs[-1]]: raises [IndexError] on an empty list. *)
Definition py_last {A : Type} (xs : list A) : result A :=
  match rev xs with
  | [] => Raise IndexError
  | x :: _ => Ok x
  end.

(** ** The parsed blocks *)

Module Event.
(** The [event_type_details] mapping of an event. *)
Record details : Type := {
  event : option string;
  note : option string
}.

Definition no_details : details := {| event := None; note := None |}.

(** One raw event of [KeyEvents.events]. *)
Record t : Type := {
  event_number : option Z;
  distance_of_travel : option float;
  slope : option float;
  splice_loss : option float;
  reflection_loss : option float;
  event_type : option string;
  event_type_details : option details;
  comment : option string
}.
End Event.

Module KeyEvents.
Record t : Type := {
  fiber_length : option float;
  total_loss : option float;
  optical_return_loss : option float;
  events : option (list Event.t)
}.

(** The empty mapping [{}]. *)
Definition empty : t :=
  {| fiber_length := None; total_loss := None;
     optical_return_loss := None; events := None |}.
End KeyEvents.

(** The blocks mapping; only the [KeyEvents] block is read by the core. *)
Record Blocks : Type := {
  KeyEvents_block : option KeyEvents.t
}.

(** [blocks.get("KeyEvents") or {}] *)
Definition key_events (blocks : Blocks) : KeyEvents.t :=
  match KeyEvents_block blocks with
  | Some ke => ke
  | None => KeyEvents.empty
  end.

(** [ke.get("events") or []] *)
Definition events_of (ke : KeyEvents.t) : list Event.t :=
  match KeyEvents.events ke with
  | Some evs => evs
  | None => []
  end.

(** ** Distance calibrator *)

(** [max((float(e.get("distance_of_travel") or 0.0) for e in events),
    default=0.0)] *)
Definition max_event_distance (events : list Event.t) : float :=
  py_max_default (map (fun e => or0 (Event.distance_of_travel e)) events) 0.

Definition auto_distance_factor (blocks : Blocks) : result float :=
  let ke := key_events blocks in
  let events := events_of ke in
  let fl := KeyEvents.fiber_length ke in
  let max_ev := max_event_distance events in
  match fl with
  | Some fl' =>
      if truthy fl' && truthy max_ev then
        r <- py_div max_ev fl' ;;
        if chained_lt 1.7 r 2.3 then Ok 0.5
        else if chained_lt 0.85 r 1.15 then Ok 1
        else Ok 0.5
      else Ok 0.5
  | None => Ok 0.5
  end.

(** ** Event table builder *)

Module Row.
(** One row of the event table, field for field as the [dict] literal of
    [extract_events_table]. *)
Record t : Type := {
  event_number : option Z;
  distance_m : float;
  rel_distance_m : float;
  event_loss_db : float;
  slope_db_per_km : float;
  section_loss_db : float;
  cumulative_loss_db : float;
  reflectance_db : float;
  event_type : option string;
  event : option string;
  note : option string;
  comment : string
}.
End Row.

Definition of_int (v : option Z) : PyVal :=
  match v with
  | Some z => PyInt z
  | None => PyNone
  end.

Definition of_str (v : option string) : PyVal :=
  match v with
  | Some s => PyStr s
  | None => PyNone
  end.

(** The items of the row mapping, in the insertion order of the literal. *)
Definition row_items (r : Row.t) : list (string * PyVal) :=
  [ ("event_number"%string, of_int (Row.event_number r));
    ("distance_m"%string, PyFloat (Row.distance_m r));
    ("rel_distance_m"%string, PyFloat (Row.rel_distance_m r));
    ("event_loss_db"%string, PyFloat (Row.event_loss_db r));
    ("slope_db_per_km"%string, PyFloat (Row.slope_db_per_km r));
    ("section_loss_db"%string, PyFloat (Row.section_loss_db r));
    ("cumulative_loss_db"%string, PyFloat (Row.cumulative_loss_db r));
    ("reflectance_db"%string, PyFloat (Row.reflectance_db r));
    ("event_type"%string, of_str (Row.event_type r));
    ("event"%string, of_str (Row.event r));
    ("note"%string, of_str (Row.note r));
    ("comment"%string, PyStr (Row.comment r)) ].

(** [list(row.keys())] *)
Definition row_keys (r : Row.t) : list string := map fst (row_items r).

(** [rel_dist_m = dist_m - prev_dist_m; if rel_dist_m < 0: rel_dist_m = 0.0] *)
Definition clamped_rel (dist_m prev_dist_m : float) : float :=
  let rel_dist_m := dist_m - prev_dist_m in
  if rel_dist_m <? 0 then 0 else rel_dist_m.

(** The variables the [for] loop updates. *)
Module Loop.
Record state : Type := {
  rows : list Row.t;
  prev_dist_m : float;
  cum_loss_db : float
}.

(** [rows = []], [prev_dist_m = 0.0], [cum_loss_db = 0.0] *)
Definition init : state :=
  {| rows := []; prev_dist_m := 0; cum_loss_db := 0 |}.
End Loop.

(** One iteration of the [for] loop on the event [e]. *)
Definition loop_body (distance_factor : float) (st : Loop.state)
    (e : Event.t) : result Loop.state :=
  let dist_m := or0 (Event.distance_of_travel e) * distance_factor in
  let slope_db_per_km := or0 (Event.slope e) in
  let event_loss_db := or0 (Event.splice_loss e) in
  let reflectance_db := or0 (Event.reflection_loss e) in
  let rel_dist_m := clamped_rel dist_m (Loop.prev_dist_m st) in
  rel_dist_km <- py_div rel_dist_m 1000 ;;
  let section_loss_db := slope_db_per_km * rel_dist_km in
  let cum_loss_db := Loop.cum_loss_db st + (event_loss_db + section_loss_db) in
  let etd :=
    match Event.event_type_details e with
    | Some d => d
    | None => Event.no_details
    end in
  let row :=
    {| Row.event_number := Event.event_number e;
       Row.distance_m := dist_m;
       Row.rel_distance_m := rel_dist_m;
       Row.event_loss_db := event_loss_db;
       Row.slope_db_per_km := slope_db_per_km;
       Row.section_loss_db := section_loss_db;
       Row.cumulative_loss_db := cum_loss_db;
       Row.reflectance_db := reflectance_db;
       Row.event_type := Event.event_type e;
       Row.event := Event.event etd;
       Row.note := Event.note etd;
       Row.comment := or_empty (Event.comment e) |} in
  Ok {| Loop.rows := Loop.rows st ++ [row];
        Loop.prev_dist_m := dist_m;
        Loop.cum_loss_db := cum_loss_db |}.

(** [for x in xs: body], threading the loop variables; an exception ends
    the loop. *)
Fixpoint for_each {S E : Type} (body : S -> E -> result S) (xs : list E)
    (st : S) : result S :=
  match xs with
  | [] => Ok st
  | x :: rest => st' <- body st x ;; for_each body rest st'
  end.

Definition extract_events_table (blocks : Blocks) (distance_factor : float)
    : result (list Row.t) :=
  let ke := key_events blocks in
  let events := events_of ke in
  st <- for_each (loop_body distance_factor) events Loop.init ;;
  Ok (Loop.rows st).

(** ** Summary aggregator *)

Module Summary.
Record t : Type := {
  fiber_length_m : float;
  fiber_length_km : float;
  total_loss_db : float;
  avg_att_db_per_km : option float;
  optical_return_loss_db : option float
}.
End Summary.

Definition summarize (blocks : Blocks) (rows : list Row.t)
    : result Summary.t :=
  let ke := key_events blocks in
  fiber_length_m <-
    match rows with
    | [] => Ok 0
    | _ :: _ => py_max (map Row.distance_m rows)
    end ;;
  total_loss_db <-
    match KeyEvents.total_loss ke with
    | None =>
        match rows with
        | [] => Ok 0
        | _ :: _ => last <- py_last rows ;; Ok (Row.cumulative_loss_db last)
        end
    | Some t => Ok t
    end ;;
  fiber_length_km <- py_div fiber_length_m 1000 ;;
  avg_att_db_per_km <-
    (if 0 <? fiber_length_km
     then q <- py_div total_loss_db fiber_length_km ;; Ok (Some q)
     else Ok None) ;;
  Ok {| Summary.fiber_length_m := fiber_length_m;
        Summary.fiber_length_km := fiber_length_km;
        Summary.total_loss_db := total_loss_db;
        Summary.avg_att_db_per_km := avg_att_db_per_km;
        Summary.optical_return_loss_db := KeyEvents.optical_return_loss ke |}.

(** ** Mode dispatch of [main] *)

(** [choices=["auto", "oneway", "twoway"]] of the [--distance] option. *)
Definition distance_choices : list string :=
  [ "auto"; "oneway"; "twoway" ]%string.

(** The [if]/[elif]/[else] of [main] on [args.distance]. *)
Definition main_distance_factor (distance : string) (blocks : Blocks)
    : result float :=
  if String.eqb distance "twoway" then Ok 1
  else if String.eqb distance "oneway" then Ok 0.5
  else auto_distance_factor blocks.

(** The analysis of [main]: factor, then rows, then summary. *)
Definition main_analysis (distance : string) (blocks : Blocks)
    : result (float * list Row.t * Summary.t) :=
  factor <- main_distance_factor distance blocks ;;
  rows <- extract_events_table blocks factor ;;
  summary <- summarize blocks rows ;;
  Ok (factor, rows, summary).

(** * Notions used by the statements *)

(** The row one iteration appends, as a function of the event and of the
    carried [prev_dist_m] and [cum_loss_db] (lemma [loop_body_row]). *)
Definition event_row (distance_factor prev_dist_m cum_loss_db : float)
    (e : Event.t) : Row.t :=
  let dist_m := or0 (Event.distance_of_travel e) * distance_factor in
  let rel_dist_m := clamped_rel dist_m prev_dist_m in
  let section_loss_db := or0 (Event.slope e) * (rel_dist_m / 1000) in
  let etd :=
    match Event.event_type_details e with
    | Some d => d
    | None => Event.no_details
    end in
  {| Row.event_number := Event.event_number e;
     Row.distance_m := dist_m;
     Row.rel_distance_m := rel_dist_m;
     Row.event_loss_db := or0 (Event.splice_loss e);
     Row.slope_db_per_km := or0 (Event.slope e);
     Row.section_loss_db := section_loss_db;
     Row.cumulative_loss_db :=
       cum_loss_db + (or0 (Event.splice_loss e) + section_loss_db);
     Row.reflectance_db := or0 (Event.reflection_loss e);
     Row.event_type := Event.event_type e;
     Row.event := Event.event etd;
     Row.note := Event.note etd;
     Row.comment := or_empty (Event.comment e) |}.

(** The rows the loop appends for [events], started with the given carried
    values (lemma [for_each_loop_body]). *)
Fixpoint rows_from (distance_factor : float) (events : list Event.t)
    (prev_dist_m cum_loss_db : float) : list Row.t :=
  match events with
  | [] => []
  | e :: rest =>
      let row := event_row distance_factor prev_dist_m cum_loss_db e in
      row :: rows_from distance_factor rest
               (Row.distance_m row) (Row.cumulative_loss_db row)
  end.

(** The value of a float field in the row before row [i], or [start] for
    the first row. *)
Definition before (field : Row.t -> float) (start : float)
    (rows : list Row.t) (i : nat) : float :=
  match i with
  | O => start
  | S j =>
      match nth_error rows j with
      | Some r => field r
      | None => start
      end
  end.

(** [prev_dist_m] when row [i] is built: [0.0] for the first row, then the
    [distance_m] of the row before (lemma [loop_state_after]). *)
Definition carried_distance (rows : list Row.t) (i : nat) : float :=
  before Row.distance_m 0 rows i.

(** [cum_loss_db] when row [i] is built: [0.0] for the first row, then the
    [cumulative_loss_db] of the row before. *)
Definition carried_loss (rows : list Row.t) (i : nat) : float :=
  before Row.cumulative_loss_db 0 rows i.

(** The keys of the row literal of [extract_events_table], in order. *)
Definition row_field_names : list string :=
  [ "event_number"; "distance_m"; "rel_distance_m"; "event_loss_db";
    "slope_db_per_km"; "section_loss_db"; "cumulative_loss_db";
    "reflectance_db"; "event_type"; "event"; "note"; "comment" ]%string.

(** An event whose missing numeric fields are given as [0.0]. *)
Definition fill_event (e : Event.t) : Event.t :=
  {| Event.event_number := Event.event_number e;
     Event.distance_of_travel := Some (or0 (Event.distance_of_travel e));
     Event.slope := Some (or0 (Event.slope e));
     Event.splice_loss := Some (or0 (Event.splice_loss e));
     Event.reflection_loss := Some (or0 (Event.reflection_loss e));
     Event.event_type := Event.event_type e;
     Event.event_type_details := Event.event_type_details e;
     Event.comment := Event.comment e |}.

(** Blocks whose missing block, missing event list and missing numeric
    event fields are given as the empty mapping, the empty list and [0.0]. *)
Definition fill_blocks (blocks : Blocks) : Blocks :=
  let ke := key_events blocks in
  {| KeyEvents_block :=
       Some {| KeyEvents.fiber_length := KeyEvents.fiber_length ke;
               KeyEvents.total_loss := KeyEvents.total_loss ke;
               KeyEvents.optical_return_loss :=
                 KeyEvents.optical_return_loss ke;
               KeyEvents.events := Some (map fill_event (events_of ke)) |} |}.

(** The row holds the descriptive fields of the event, its calibrated
    distance and its losses; a missing number reads 0.0, a missing comment
    the empty string. *)
Definition row_of_event (distance_factor : float) (e : Event.t)
    (row : Row.t) : Prop :=
  Row.event_number row = Event.event_number e /\
  Row.distance_m row
    = or0 (Event.distance_of_travel e) * distance_factor /\
  Row.event_loss_db row = or0 (Event.splice_loss e) /\
  Row.slope_db_per_km row = or0 (Event.slope e) /\
  Row.reflectance_db row = or0 (Event.reflection_loss e) /\
  Row.event_type row = Event.event_type e /\
  Row.event row
    = match Event.event_type_details e with
      | Some d => Event.event d
      | None => None
      end /\
  Row.note row
    = match Event.event_type_details e with
      | Some d => Event.note d
      | None => None
      end /\
  Row.comment row = or_empty (Event.comment e).

(** A spec float that is infinite or finite and nonzero, of sign [s]. *)
Definition signed (s : bool) (x : spec_float) : Prop :=
  match x with
  | S754_finite s' _ _ | S754_infinity s' => s' = s
  | _ => False
  end.

(** ** Sample inputs *)

Definition sample_event (d s l r : float) : Event.t :=
  {| Event.event_number := Some 1%Z;
     Event.distance_of_travel := Some d;
     Event.slope := Some s;
     Event.splice_loss := Some l;
     Event.reflection_loss := Some r;
     Event.event_type := None;
     Event.event_type_details := None;
     Event.comment := None |}.

Definition sample_blocks (fl tl : option float) (evs : list Event.t)
    : Blocks :=
  {| KeyEvents_block :=
       Some {| KeyEvents.fiber_length := fl;
               KeyEvents.total_loss := tl;
               KeyEvents.optical_return_loss := None;
               KeyEvents.events := Some evs |} |}.

(** The scenario of the specification: two events at raw 1000 and 2000,
    fibre length 1000 (ratio 2.0). *)
Definition round_trip_blocks : Blocks :=
  sample_blocks (Some 1000) None
    [sample_event 1000 (-0.2) 0.05 (-40); sample_event 2000 (-0.2) 0.1 (-35)].

(** The same events with fibre length 2000 (ratio 1.0). *)
Definition one_way_blocks : Blocks :=
  sample_blocks (Some 2000) None
    [sample_event 1000 (-0.2) 0.05 (-40); sample_event 2000 (-0.2) 0.1 (-35)].

(** A regression: the second event lies before the first. *)
Definition regression_blocks : Blocks :=
  sample_blocks (Some 1000) None
    [sample_event 1000 (-0.2) 0.05 (-40); sample_event 500 (-0.2) 0.1 (-35);
     sample_event 700 1 1 1].

(** Two events whose calibrated distance overflows under factor 4.0. *)
Definition overflow_blocks : Blocks :=
  sample_blocks (Some 1000) None
    [sample_event 1e308 (-0.2) 0.05 (-40); sample_event 1e308 (-0.2) 0.1 (-35)].

(** One event at a negative raw distance. *)
Definition negative_blocks : Blocks :=
  sample_blocks (Some 1000) None [sample_event (-2000) (-0.2) 0.05 (-40)].

(** A device-reported total loss of 12.5. *)
Definition reported_blocks : Blocks :=
  sample_blocks (Some 1000) (Some 12.5)
    [sample_event 1000 (-0.2) 0.05 (-40); sample_event 2000 (-0.2) 0.1 (-35)].

(** * The collaborators of the core

    [write_csv], [plot_trace] and the report of [main].  What they hand to
    the file system, to the plotting library and to the console is returned
    as a value: the records given to the CSV writer, the two series given
    to the plot, the lines printed.  The text of a line (the formatting of
    its numbers) and the bytes of a file are not modelled. *)

(** A [dict] with string keys: its items in insertion order. *)
Definition Dict : Type := list (string * PyVal).

(** [d.get(key)] *)
Fixpoint dict_get (d : Dict) (key : string) : option PyVal :=
  match d with
  | [] => None
  | (k, v) :: rest => if String.eqb k key then Some v else dict_get rest key
  end.





Module Csv.
(** What [write_csv] writes: the header row and the records, cell by cell,
    at the path [out_csv]. *)
Record file : Type := {
  path : string;
  header : list string;
  records : list (list PyVal)
}.
End Csv.


Module DataPts.
(** The [DataPts] block: the (distance, level) samples of the trace. *)
Record t : Type := {
  data_points : option (list (float * float))
}.
End DataPts.



(** The lines the program prints, each with the values it shows. *)
Inductive Line : Type :=
| FileLine (sor_file : string)
| FactorLine (factor : float)
| LengthLine (fiber_length_m fiber_length_km : float)
| TotalLossLine (total_loss_db : float)
| AverageLine (avg_att_db_per_km : float)
| OrlLine (optical_return_loss_db : float)
| EventsHeader
| EventLine (row : Row.t)
| CsvWritten (out_csv : string)
| PngWritten (out_png : string)
| NoMatplotlib
| NoDataPts.

Module Plot.
(** What [plot_trace] draws: the abscissae and the ordinates of the curve
    saved at [out_png]. *)
Record figure : Type := {
  path : string;
  xs : list float;
  ys : list float
}.
End Plot.


Module Args.
(** The parsed command line: [--csv] and [--plot] default to [None]. *)
Record t : Type := {
  sor_file : string;
  distance : string;
  csv : option string;
  plot : option string
}.
End Args.

Module Run.
(** What one run of [main] leaves: the console, the CSV file and the
    figure, if any. *)
Record t : Type := {
  console : list Line;
  csv_file : option Csv.file;
  figure : option Plot.figure
}.
End Run.




(** ** Notions used by the statements on the collaborators *)

(** The cells of a row of the table, in the order of its keys. *)
Definition row_cells (r : Row.t) : list PyVal := map snd (row_items r).


(** The cells of [d] under the fields [fieldnames], [""] for a field it
    lacks. *)
Definition cells_under (fieldnames : list string) (d : Dict) : list PyVal :=
  map (fun key =>
         match dict_get d key with
         | Some v => v
         | None => PyStr ""
         end) fieldnames.

(** The floats [start <= x1 <= x2 <= ...]. *)
Fixpoint nondecreasing (start : float) (xs : list float) : bool :=
  match xs with
  | [] => true
  | x :: rest => (start <=? x) && nondecreasing x rest
  end.







(** * Facts of binary64 arithmetic

    Derived from the specification of the primitive operations
    ([FloatAxioms]) and the reference implementation [SpecFloat]. *)

Section Binary64.

Local Open Scope Z_scope.

(** ** Order *)

Ltac sf_cases :=
  repeat match goal with
  | |- context [(?a ?= ?b)%Z] => destruct (Z.compare_spec a b)
  | |- context [Pos.compare_cont Eq ?a ?b] =>
      change (Pos.compare_cont Eq a b) with (Pos.compare a b);
      destruct (Pos.compare_spec a b)
  end; cbn; try congruence; try lia.

Lemma SFltb_asym x y : SFltb x y = true -> SFltb y x = false.
Proof.
  unfold SFltb.
  destruct x as [sx|sx| |sx mx ex], y as [sy|sy| |sy my ey];
    try (destruct sx); try (destruct sy); cbn; try congruence; sf_cases.
Qed.

Lemma SFltb_trans x y z :
  SFltb x y = true -> SFltb y z = true -> SFltb x z = true.
Proof.
  unfold SFltb.
  destruct x as [sx|sx| |sx mx ex], y as [sy|sy| |sy my ey],
           z as [sz|sz| |sz mz ez];
    try (destruct sx); try (destruct sy); try (destruct sz);
    cbn; try congruence; sf_cases.
Qed.

Lemma ltb_asym (x y : float) : (x <? y)%float = true -> (y <? x)%float = false.
Proof. rewrite !ltb_spec. apply SFltb_asym. Qed.

Lemma ltb_trans (x y z : float) :
  (x <? y)%float = true -> (y <? z)%float = true -> (x <? z)%float = true.
Proof. rewrite !ltb_spec. apply SFltb_trans. Qed.

Lemma SFleb_trans x y z :
  SFleb x y = true -> SFleb y z = true -> SFleb x z = true.
Proof.
  unfold SFleb.
  destruct x as [sx|sx| |sx mx ex], y as [sy|sy| |sy my ey],
           z as [sz|sz| |sz mz ez];
    try (destruct sx); try (destruct sy); try (destruct sz);
    cbn; try congruence; sf_cases.
Qed.

Lemma leb_trans (x y z : float) :
  (x <=? y)%float = true -> (y <=? z)%float = true -> (x <=? z)%float = true.
Proof. rewrite !leb_spec. apply SFleb_trans. Qed.

Lemma ltb_leb (x y : float) :
  (x <? y)%float = true -> (x <=? y)%float = true.
Proof.
  rewrite ltb_spec, leb_spec. unfold SFltb, SFleb.
  destruct (SFcompare _ _) as [[]|]; congruence.
Qed.

Lemma leb_refl (x : float) : is_nan x = false -> (x <=? x)%float = true.
Proof.
  unfold is_nan. rewrite leb_spec, FloatAxioms.eqb_spec. unfold SFeqb, SFleb.
  destruct (SFcompare _ _) as [[]|]; cbn; congruence.
Qed.

(** Two numbers are ordered one way or the other. *)
Lemma not_ltb_leb (x y : float) :
  is_nan x = false -> is_nan y = false ->
  (x <? y)%float = false -> (y <=? x)%float = true.
Proof.
  unfold is_nan. rewrite ltb_spec, leb_spec, !FloatAxioms.eqb_spec.
  unfold SFeqb, SFltb, SFleb.
  destruct (Prim2SF x) as [sx|sx| |sx mx ex], (Prim2SF y) as [sy|sy| |sy my ey];
    try (destruct sx); try (destruct sy); cbn; try congruence; sf_cases.
Qed.

(** A float that is not below zero and is a number is at least zero. *)
Lemma not_neg_leb (x : float) :
  (x <? 0)%float = false -> is_nan x = false -> (0 <=? x)%float = true.
Proof.
  unfold is_nan. rewrite ltb_spec, leb_spec, FloatAxioms.eqb_spec.
  change (Prim2SF 0) with (S754_zero false).
  destruct (Prim2SF x) as [s|s| |s m e]; try destruct s; cbn; congruence.
Qed.

(** NaN is not at least zero. *)
Lemma nan_not_leb (x : float) :
  is_nan x = true -> (0 <=? x)%float = false.
Proof.
  unfold is_nan. rewrite leb_spec, FloatAxioms.eqb_spec.
  change (Prim2SF 0) with (S754_zero false).
  destruct (Prim2SF x) as [s|s| |s m e]; try destruct s; cbn; try congruence;
    unfold SFeqb; cbn; rewrite ?Z.compare_refl;
    change (Pos.compare_cont Eq m m) with (Pos.compare m m);
    rewrite ?Pos.compare_refl; cbn; congruence.
Qed.

(** What [is_finite] says of the spec float. *)
Lemma is_finite_spec (x : float) :
  is_finite x = true ->
  match Prim2SF x with
  | S754_zero _ | S754_finite _ _ _ => True
  | _ => False
  end.
Proof.
  unfold is_finite, is_nan, is_infinity.
  rewrite !FloatAxioms.eqb_spec, abs_spec.
  change (Prim2SF infinity) with (S754_infinity false).
  destruct (Prim2SF x) as [s|s| |s m e]; cbn; try destruct s; cbn;
    try discriminate; trivial.
Qed.

(** A finite float times zero equals zero (of either sign). *)
Lemma mul_zero_eqb (x : float) :
  is_finite x = true -> (x * 0 =? 0)%float = true.
Proof.
  intros F. apply is_finite_spec in F. revert F.
  rewrite FloatAxioms.eqb_spec, mul_spec.
  change (Prim2SF 0) with (S754_zero false).
  destruct (Prim2SF x) as [s|s| |s m e]; try destruct s; cbn; tauto.
Qed.

(** ** Mantissas and shifts *)

Lemma digits2_pos_size p : digits2_pos p = Pos.size p.
Proof. induction p; cbn; congruence. Qed.

Lemma digits2_lower p : 2 ^ (Zpos (digits2_pos p) - 1) <= Zpos p.
Proof.
  rewrite digits2_pos_size.
  pose proof (Pos.size_le p) as H.
  assert (Hz : 2 ^ Zpos (Pos.size p) <= 2 * Zpos p).
  { change (2 * Zpos p) with (Zpos p~0). rewrite <- Pos2Z.inj_pow. exact H. }
  replace (Zpos (Pos.size p)) with (Z.succ (Zpos (Pos.size p) - 1)) in Hz
    by lia.
  rewrite Z.pow_succ_r in Hz by lia. lia.
Qed.

Lemma digits2_upper p : Zpos p < 2 ^ Zpos (digits2_pos p).
Proof.
  rewrite digits2_pos_size, <- Pos2Z.inj_pow. exact (Pos.size_gt p).
Qed.

Lemma shr_1_div2 mrs : 0 <= shr_m mrs -> shr_m (shr_1 mrs) = shr_m mrs / 2.
Proof.
  destruct mrs as [m r s]; cbn. intros Hm.
  destruct m as [|p|p]; [reflexivity| |lia].
  destruct p as [p|p|]; cbn [shr_m].
  - rewrite Pos2Z.inj_xI. apply Z.div_unique with 1; lia.
  - rewrite (Pos2Z.inj_xO p). apply Z.div_unique with 0; lia.
  - reflexivity.
Qed.

Lemma iter_shr_1_div n : forall mrs, 0 <= shr_m mrs ->
  shr_m (SpecFloat.iter_pos shr_1 n mrs) = shr_m mrs / 2 ^ Zpos n.
Proof.
  assert (P : forall k, 0 < 2 ^ Zpos k) by (intros; apply Z.pow_pos_nonneg; lia).
  induction n as [n IH|n IH|]; intros mrs Hm; cbn [SpecFloat.iter_pos].
  - assert (H1 : 0 <= shr_m (shr_1 mrs)).
    { rewrite shr_1_div2 by assumption. apply Z.div_pos; lia. }
    assert (H2 : 0 <= shr_m (SpecFloat.iter_pos shr_1 n (shr_1 mrs))).
    { rewrite IH by assumption. apply Z.div_pos; [assumption|apply P]. }
    rewrite IH, IH, shr_1_div2 by assumption.
    rewrite !Z.div_div by (try apply P; lia).
    f_equal. rewrite Pos2Z.inj_xI.
    replace (2 * Zpos n + 1) with (1 + Zpos n + Zpos n) by lia.
    rewrite !Z.pow_add_r by lia. change (2 ^ 1) with 2. lia.
  - assert (H2 : 0 <= shr_m (SpecFloat.iter_pos shr_1 n mrs)).
    { rewrite IH by assumption. apply Z.div_pos; [assumption|apply P]. }
    rewrite IH, IH by assumption.
    rewrite !Z.div_div by (try apply P; lia).
    f_equal. rewrite (Pos2Z.inj_xO n).
    replace (2 * Zpos n) with (Zpos n + Zpos n) by lia.
    rewrite !Z.pow_add_r by lia. lia.
  - rewrite shr_1_div2 by assumption. reflexivity.
Qed.

Lemma shr_record_of_loc_m m l : shr_m (shr_record_of_loc m l) = m.
Proof. destruct l as [|[]]; reflexivity. Qed.

(** Shifting a positive mantissa to its format exponent leaves it positive
    when the exponent is not below [emin]. *)
Lemma shr_fexp_pos p e l :
  emin <= e ->
  0 < shr_m (fst (shr_fexp prec emax (Zpos p) e l)) /\
  emin <= snd (shr_fexp prec emax (Zpos p) e l).
Proof.
  intros He. unfold shr_fexp, shr. cbn [Zdigits2].
  set (d := Zpos (digits2_pos p)).
  destruct (fexp prec emax (d + e) - e) as [|n|n] eqn:En; cbn [fst snd];
    rewrite ?shr_record_of_loc_m; try (split; [lia|assumption]).
  rewrite iter_shr_1_div by (rewrite shr_record_of_loc_m; lia).
  rewrite shr_record_of_loc_m.
  assert (Hn : Zpos n <= d - 1).
  { unfold fexp, emin in *. change prec with 53 in *.
    change emax with 1024 in *. lia. }
  split; [|lia].
  apply Z.div_str_pos. split; [apply Z.pow_pos_nonneg; lia|].
  transitivity (2 ^ (d - 1)); [apply Z.pow_le_mono_r; lia|apply digits2_lower].
Qed.

Lemma round_nearest_even_pos m l : 0 < m -> 0 < round_nearest_even m l.
Proof.
  intros Hm. destruct l as [|[]]; cbn; try assumption;
    [destruct (Z.even m)|]; lia.
Qed.

(** ** Rounding keeps the sign *)

Lemma binary_round_aux_signed sx p e l :
  emin <= e -> signed sx (binary_round_aux prec emax sx (Zpos p) e l).
Proof.
  intros He. unfold binary_round_aux.
  destruct (shr_fexp_pos p e l He) as [H1 H2].
  destruct (shr_fexp prec emax (Zpos p) e l) as [mrs' e'].
  cbn [fst snd] in *.
  pose proof (round_nearest_even_pos _ (loc_of_shr_record mrs') H1) as H3.
  destruct (round_nearest_even (shr_m mrs') (loc_of_shr_record mrs'))
    as [|q|q]; try lia.
  destruct (shr_fexp_pos q e' loc_Exact H2) as [H4 H5].
  destruct (shr_fexp prec emax (Zpos q) e' loc_Exact) as [mrs'' e''].
  cbn [fst snd] in *.
  destruct (shr_m mrs'') as [|r|r]; try lia.
  destruct (e'' <=? emax - prec); reflexivity.
Qed.

Lemma binary_round_signed sx p e :
  emin <= e -> signed sx (binary_round prec emax sx p e).
Proof.
  intros He. unfold binary_round, shl_align.
  destruct (fexp prec emax (Zpos (digits2_pos p) + e) - e) eqn:En;
    apply binary_round_aux_signed; try assumption.
  unfold fexp, emin. lia.
Qed.

Lemma binary_normalize_sign m e :
  emin <= e ->
  match m with
  | Z0 => binary_normalize prec emax m e false = S754_zero false
  | Zpos _ => signed false (binary_normalize prec emax m e false)
  | Zneg _ => signed true (binary_normalize prec emax m e false)
  end.
Proof.
  intros He. destruct m; cbn [binary_normalize];
    [reflexivity|apply binary_round_signed|apply binary_round_signed];
    assumption.
Qed.

Lemma shl_align_value m e ez :
  ez <= e -> Zpos (fst (shl_align m e ez)) = Zpos m * 2 ^ (e - ez).
Proof.
  intros Hle. unfold shl_align.
  destruct (ez - e) as [|d|d] eqn:Ed; cbn [fst]; try lia.
  - replace (e - ez) with 0 by lia. lia.
  - replace (e - ez) with (Zpos d) by lia.
    rewrite <- Z.shiftl_mul_pow2 by lia.
    cbn [Z.shiftl]. apply Pos.iter_swap_gen. reflexivity.
Qed.

(** What validity says of a finite binary64 value. *)
Lemma valid_finite s m e :
  valid_binary (S754_finite s m e) = true ->
  emin <= e /\ Zpos m < 2 ^ 53 /\ (emin < e -> 2 ^ 52 <= Zpos m).
Proof.
  cbn [SpecFloat.valid_binary]. unfold bounded, canonical_mantissa.
  intros H. apply andb_prop in H as [H _]. apply Z.eqb_eq in H.
  pose proof (digits2_lower m) as Hlo. pose proof (digits2_upper m) as Hup.
  set (d := Zpos (digits2_pos m)) in *.
  unfold fexp, emin in *. change prec with 53 in *. change emax with 1024 in *.
  assert (Hd : d <= 53) by lia.
  split; [lia|]. split.
  - apply Z.lt_le_trans with (2 ^ d); [assumption|apply Z.pow_le_mono_r; lia].
  - intros He. replace d with 53 in Hlo by lia. exact Hlo.
Qed.

(** ** Subtraction *)

(** The order of two valid finite values is the order of their mantissas
    once aligned on the smaller exponent. *)
Lemma SFcompare_finite_Lt s1 m1 e1 s2 m2 e2 :
  valid_binary (S754_finite s1 m1 e1) = true ->
  valid_binary (S754_finite s2 m2 e2) = true ->
  SFcompare (S754_finite s1 m1 e1) (S754_finite s2 m2 e2) = Some Lt ->
  cond_Zopp s1 (Zpos (fst (shl_align m1 e1 (Z.min e1 e2))))
  - cond_Zopp s2 (Zpos (fst (shl_align m2 e2 (Z.min e1 e2)))) < 0.
Proof.
  intros V1 V2 Hc.
  apply valid_finite in V1 as (Hm1 & Hu1 & Hl1).
  apply valid_finite in V2 as (Hm2 & Hu2 & Hl2).
  rewrite !shl_align_value by lia.
  assert (P1 : 0 < 2 ^ (e1 - Z.min e1 e2)) by (apply Z.pow_pos_nonneg; lia).
  assert (P2 : 0 < 2 ^ (e2 - Z.min e1 e2)) by (apply Z.pow_pos_nonneg; lia).
  assert (G : forall a b, a < b -> 2 <= 2 ^ (b - a)).
  { intros a b Hab. change 2 with (2 ^ 1) at 1. apply Z.pow_le_mono_r; lia. }
  cbn [SFcompare] in Hc.
  change (Pos.compare_cont Eq m1 m2) with (Pos.compare m1 m2) in Hc.
  revert Hc.
  destruct s1, s2; cbn [cond_Zopp]; try discriminate; try nia;
    destruct (Z.compare_spec e1 e2) as [E|E|E];
    try discriminate;
    try (destruct (Pos.compare_spec m1 m2); cbn; try discriminate; intros _;
         subst e2; rewrite Z.min_id, Z.sub_diag, Z.pow_0_r; lia);
    intros _.
  - rewrite Z.min_r in * by lia. rewrite Z.sub_diag in *.
    specialize (G _ _ E). specialize (Hl1 ltac:(lia)). nia.
  - rewrite Z.min_l in * by lia. rewrite Z.sub_diag in *.
    specialize (G _ _ E). specialize (Hl2 ltac:(lia)). nia.
Qed.

Lemma signed_true_lt_zero x : signed true x -> SFltb x (S754_zero false) = true.
Proof.
  destruct x as [s|s| |s m e]; cbn; try tauto; intros ->; reflexivity.
Qed.

Lemma SFsub_lt_zero x y :
  valid_binary x = true -> valid_binary y = true ->
  SFltb x y = true -> SFltb (SF64sub x y) (S754_zero false) = true.
Proof.
  intros Vx Vy. unfold SFltb at 1.
  destruct (SFcompare x y) as [[]|] eqn:Hc; try discriminate. intros _.
  destruct x as [sx|sx| |sx mx ex], y as [sy|sy| |sy my ey];
    try discriminate;
    try (destruct sx; try discriminate); try (destruct sy; try discriminate);
    try reflexivity.
  all: apply signed_true_lt_zero; unfold SF64sub, SFsub.
  all: pose proof (SFcompare_finite_Lt _ _ _ _ _ _ Vx Vy Hc) as Hlt.
  all: apply valid_finite in Vx as (Hx & _);
       apply valid_finite in Vy as (Hy & _).
  all: match goal with
       | |- signed true (binary_normalize _ _ ?d ?e _) =>
           pose proof (binary_normalize_sign d e ltac:(lia)) as Hs;
           destruct d; [lia|lia|exact Hs]
       end.
Qed.

Lemma SFeqb_refl_signed s x : signed s x -> SFeqb x x = true.
Proof.
  destruct x as [s'|s'| |s' m e]; cbn; try tauto; intros _; unfold SFeqb; cbn.
  - destruct s'; reflexivity.
  - rewrite Z.compare_refl.
    change (Pos.compare_cont Eq m m) with (Pos.compare m m).
    rewrite Pos.compare_refl. destruct s'; reflexivity.
Qed.

Lemma SFsub_finite_not_nan x y :
  valid_binary x = true -> valid_binary y = true ->
  match x with S754_zero _ | S754_finite _ _ _ => True | _ => False end ->
  match y with S754_zero _ | S754_finite _ _ _ => True | _ => False end ->
  SFeqb (SF64sub x y) (SF64sub x y) = true.
Proof.
  intros Vx Vy Fx Fy.
  destruct x as [sx|sx| |sx mx ex], y as [sy|sy| |sy my ey];
    try contradiction; unfold SF64sub, SFsub.
  - destruct sx, sy; reflexivity.
  - apply (SFeqb_refl_signed (negb sy)). reflexivity.
  - apply (SFeqb_refl_signed sx). reflexivity.
  - apply valid_finite in Vx as (Hx & _). apply valid_finite in Vy as (Hy & _).
    match goal with
    | |- context [binary_normalize _ _ ?d ?e _] =>
        pose proof (binary_normalize_sign d e ltac:(lia)) as Hs; destruct d
    end.
    + rewrite Hs. reflexivity.
    + eapply SFeqb_refl_signed, Hs.
    + eapply SFeqb_refl_signed, Hs.
Qed.

(** ** Multiplication by one *)

Lemma SFmul_one x :
  valid_binary x = true ->
  SF64mul x (S754_finite false 4503599627370496 (-52)) = x.
Proof.
  intros V. destruct x as [s|s| |s m e]; unfold SF64mul, SFmul;
    rewrite ?xorb_false_r; try reflexivity.
  cbn [SpecFloat.valid_binary] in V. unfold bounded, canonical_mantissa in V.
  apply andb_prop in V as [Hc Hb]. apply Z.eqb_eq in Hc.
  rewrite (Pos.mul_comm m). cbn [Pos.mul].
  unfold binary_round_aux.
  unfold shr_fexp at 1. cbn [Zdigits2 digits2_pos].
  rewrite !Pos2Z.inj_succ.
  set (d := Zpos (digits2_pos m)) in *.
  match goal with
  | |- context [shr _ _ ?n] => replace n with 52 by (unfold fexp in *; lia)
  end.
  cbn [shr shr_record_of_loc SpecFloat.iter_pos shr_1 shr_m
       loc_of_shr_record round_nearest_even orb].
  unfold shr_fexp. cbn [Zdigits2]. fold d.
  replace (e + -52 + 52) with e by lia.
  rewrite Hc, Z.sub_diag. cbn [shr shr_record_of_loc shr_m].
  rewrite Hb. reflexivity.
Qed.

End Binary64.

(** ** The same facts on primitive floats *)

(** The test of the clamp fires whenever the distance is smaller. *)
Lemma sub_lt_zero (x y : float) : (x <? y) = true -> (x - y <? 0) = true.
Proof.
  rewrite !ltb_spec, sub_spec. change (Prim2SF 0) with (S754_zero false).
  apply SFsub_lt_zero; apply Prim2SF_valid.
Qed.

(** The difference of two finite floats is a number. *)
Lemma sub_finite_not_nan (x y : float) :
  is_finite x = true -> is_finite y = true -> is_nan (x - y) = false.
Proof.
  intros Fx Fy. apply is_finite_spec in Fx, Fy.
  unfold is_nan. rewrite FloatAxioms.eqb_spec, sub_spec.
  rewrite SFsub_finite_not_nan; auto using Prim2SF_valid.
Qed.

Lemma mul_one (x : float) : x * 1 = x.
Proof.
  apply Prim2SF_inj. rewrite mul_spec.
  change (Prim2SF 1) with (S754_finite false 4503599627370496 (-52)).
  apply SFmul_one, Prim2SF_valid.
Qed.

(** * The loop of the builder *)

Lemma py_div_1000 (x : float) : py_div x 1000 = Ok (x / 1000).
Proof. reflexivity. Qed.

Lemma loop_body_row f st e :
  loop_body f st e =
  let row := event_row f (Loop.prev_dist_m st) (Loop.cum_loss_db st) e in
  Ok {| Loop.rows := Loop.rows st ++ [row];
        Loop.prev_dist_m := Row.distance_m row;
        Loop.cum_loss_db := Row.cumulative_loss_db row |}.
Proof. reflexivity. Qed.

Lemma last_cons_start {A : Type} (l : list A) (a d : A) :
  last (a :: l) d = last l a.
Proof.
  revert a d. induction l as [|b l IH]; intros a d; [reflexivity|].
  change (last (a :: b :: l) d) with (last (b :: l) d).
  rewrite IH. symmetry. apply IH.
Qed.

(** The loop never raises; it appends [rows_from] to the rows and leaves
    in the carried variables the fields of the last row. *)
Lemma for_each_loop_body f events : forall st,
  exists st',
    for_each (loop_body f) events st = Ok st' /\
    Loop.rows st' =
      Loop.rows st
      ++ rows_from f events (Loop.prev_dist_m st) (Loop.cum_loss_db st) /\
    Loop.prev_dist_m st' =
      last (map Row.distance_m
              (rows_from f events (Loop.prev_dist_m st) (Loop.cum_loss_db st)))
           (Loop.prev_dist_m st) /\
    Loop.cum_loss_db st' =
      last (map Row.cumulative_loss_db
              (rows_from f events (Loop.prev_dist_m st) (Loop.cum_loss_db st)))
           (Loop.cum_loss_db st).
Proof.
  induction events as [|e rest IH]; intros st.
  - exists st. cbn. rewrite app_nil_r. auto.
  - cbn [for_each]. rewrite loop_body_row. cbn zeta. cbn [bind].
    match goal with
    | |- context [for_each _ rest ?s] => destruct (IH s) as (st' & Hrun & Hr & Hp & Hc)
    end.
    exists st'. cbn [Loop.rows Loop.prev_dist_m Loop.cum_loss_db] in *.
    split; [exact Hrun|]. cbn [rows_from map].
    rewrite !last_cons_start, Hr, <- app_assoc. auto.
Qed.

Lemma extract_events_table_rows blocks f :
  extract_events_table blocks f =
  Ok (rows_from f (events_of (key_events blocks)) 0 0).
Proof.
  unfold extract_events_table.
  destruct (for_each_loop_body f (events_of (key_events blocks)) Loop.init)
    as (st & Hrun & Hr & _).
  rewrite Hrun. cbn [bind]. rewrite Hr. reflexivity.
Qed.

Lemma rows_from_length f events : forall p c,
  length (rows_from f events p c) = length events.
Proof.
  induction events as [|e rest IH]; intros p c; cbn; [|rewrite IH]; reflexivity.
Qed.

Lemma before_cons field start row rows j :
  (j <= length rows)%nat ->
  before field start (row :: rows) (S j) = before field (field row) rows j.
Proof.
  intros Hj. destruct j as [|k]; [reflexivity|].
  cbn [before nth_error].
  destruct (nth_error rows k) eqn:E; [reflexivity|].
  apply nth_error_None in E. lia.
Qed.

(** Row [i] is the row of event [i], built from the fields of row [i-1]. *)
Lemma rows_from_nth f events : forall p c i e,
  nth_error events i = Some e ->
  let rows := rows_from f events p c in
  nth_error rows i =
  Some (event_row f (before Row.distance_m p rows i)
                    (before Row.cumulative_loss_db c rows i) e).
Proof.
  induction events as [|e0 rest IH]; intros p c i e He; [destruct i; discriminate|].
  destruct i as [|j]; cbn [nth_error] in He.
  - injection He as <-. reflexivity.
  - cbn zeta. cbn [rows_from nth_error].
    assert (Hj : (j < length rest)%nat).
    { apply nth_error_Some. congruence. }
    rewrite !before_cons by (rewrite rows_from_length; lia).
    apply IH. exact He.
Qed.

Lemma rows_from_nth_inv f events p c i r :
  nth_error (rows_from f events p c) i = Some r ->
  exists e, nth_error events i = Some e.
Proof.
  intros H. destruct (nth_error events i) as [e|] eqn:E; [eauto|].
  apply nth_error_None in E. rewrite <- (rows_from_length f events p c) in E.
  apply nth_error_None in E. congruence.
Qed.

Lemma rows_from_firstn f events : forall p c i,
  rows_from f (firstn i events) p c = firstn i (rows_from f events p c).
Proof.
  induction events as [|e rest IH]; intros p c [|i]; try reflexivity.
  cbn [firstn rows_from]. rewrite IH. reflexivity.
Qed.

Lemma last_firstn_before field (rows : list Row.t) : forall start i,
  (i <= length rows)%nat ->
  last (map field (firstn i rows)) start = before field start rows i.
Proof.
  induction rows as [|r rows IH]; intros start [|i] Hi; try reflexivity.
  - cbn in Hi. lia.
  - cbn [firstn map]. rewrite last_cons_start.
    cbn [length] in Hi. rewrite IH by lia.
    destruct i as [|k]; [reflexivity|].
    symmetry. apply before_cons. lia.
Qed.

(** After the first [i] events the loop holds the first [i] rows and
    carries the distance and the cumulative loss of row [i-1]. *)
Lemma loop_state_after f events i :
  let rows := rows_from f events 0 0 in
  (i <= length rows)%nat ->
  exists st,
    for_each (loop_body f) (firstn i events) Loop.init = Ok st /\
    Loop.rows st = firstn i rows /\
    Loop.prev_dist_m st = carried_distance rows i /\
    Loop.cum_loss_db st = carried_loss rows i.
Proof.
  intros rows Hi.
  destruct (for_each_loop_body f (firstn i events) Loop.init)
    as (st & Hrun & Hr & Hp & Hc).
  exists st. cbn [Loop.init Loop.rows Loop.prev_dist_m Loop.cum_loss_db] in *.
  rewrite rows_from_firstn in Hr, Hp, Hc. fold rows in Hr, Hp, Hc.
  rewrite last_firstn_before in Hp, Hc by exact Hi.
  cbn [app] in Hr. auto.
Qed.

(** * Distance calibrator and mode dispatch *)

Lemma py_div_truthy (x y : float) :
  truthy y = true -> py_div x y = Ok (x / y).
Proof.
  unfold truthy, py_div. intros H. apply negb_true_iff in H. rewrite H.
  reflexivity.
Qed.

(** The scan of [max] returns one of the items. *)
Lemma max_from_in (xs : list float) : forall best,
  In (max_from best xs) (best :: xs).
Proof.
  induction xs as [|x xs IH]; intros best; cbn [max_from]; [left; reflexivity|].
  destruct (IH (if best <? x then x else best)) as [H|H].
  - rewrite <- H. destruct (best <? x); [right; left|left]; reflexivity.
  - right. right. exact H.
Qed.

(** On numbers the scan of [max] returns an upper bound of the items. *)
Lemma max_from_upper (xs : list float) : forall best,
  Forall (fun x => is_nan x = false) (best :: xs) ->
  Forall (fun x => (x <=? max_from best xs) = true) (best :: xs).
Proof.
  induction xs as [|x xs IH]; intros best Hn.
  - constructor; [|constructor]. apply leb_refl.
    apply (Forall_inv Hn).
  - pose proof (Forall_inv Hn) as Nb.
    pose proof (Forall_inv (Forall_inv_tail Hn)) as Nx.
    pose proof (Forall_inv_tail (Forall_inv_tail Hn)) as Nxs.
    cbn [max_from]. set (b' := if best <? x then x else best).
    assert (Nb' : is_nan b' = false) by (subst b'; destruct (best <? x); assumption).
    specialize (IH b' (Forall_cons _ Nb' Nxs)).
    pose proof (Forall_inv IH) as Hb'.
    assert (Hbest : (best <=? b') = true /\ (x <=? b') = true).
    { subst b'. destruct (best <? x) eqn:E.
      - split; [apply ltb_leb; exact E|apply leb_refl; exact Nx].
      - split; [apply leb_refl; exact Nb|apply not_ltb_leb; assumption]. }
    destruct Hbest as [H1 H2].
    constructor; [eapply leb_trans; eassumption|].
    constructor; [eapply leb_trans; eassumption|].
    apply (Forall_inv_tail IH).
Qed.

(** X12. With events, and no NaN among their distances, the distance the
    calibrator compares with the fibre length, [max_event_distance], is the
    distance of one of the events and is at least all of them. *)
Lemma max_event_distance_greatest (events : list Event.t) :
  events <> [] ->
  Forall (fun e => is_nan (or0 (Event.distance_of_travel e)) = false) events ->
  (exists e, In e events /\
             max_event_distance events = or0 (Event.distance_of_travel e)) /\
  Forall (fun e =>
            (or0 (Event.distance_of_travel e) <=? max_event_distance events)
            = true) events.
Proof.
  destruct events as [|e0 rest]; [congruence|]. intros _ Hn.
  unfold max_event_distance. cbn [map py_max_default].
  set (d := fun e => or0 (Event.distance_of_travel e)) in *.
  split.
  - pose proof (max_from_in (map d rest) (d e0)) as H.
    change (d e0 :: map d rest) with (map d (e0 :: rest)) in H.
    apply in_map_iff in H as (e & He & Hin). exists e. auto.
  - assert (Hn' : Forall (fun x => is_nan x = false) (d e0 :: map d rest)).
    { change (d e0 :: map d rest) with (map d (e0 :: rest)).
      apply Forall_map. exact Hn. }
    pose proof (max_from_upper _ _ Hn') as H.
    change (d e0 :: map d rest) with (map d (e0 :: rest)) in H.
    apply Forall_map in H. exact H.
Qed.

(** The two bands do not meet. *)
Lemma bands_disjoint (r : float) :
  chained_lt 0.85 r 1.15 = true -> chained_lt 1.7 r 2.3 = false.
Proof.
  unfold chained_lt. intros H. apply andb_prop in H as [_ H].
  apply andb_false_intro1, ltb_asym.
  apply (ltb_trans _ _ _ H). reflexivity.
Qed.

(** The calibrator, once both values are present and nonzero. *)
Lemma auto_distance_factor_ratio blocks fl :
  KeyEvents.fiber_length (key_events blocks) = Some fl ->
  truthy fl = true ->
  truthy (max_event_distance (events_of (key_events blocks))) = true ->
  auto_distance_factor blocks =
  let r := max_event_distance (events_of (key_events blocks)) / fl in
  if chained_lt 1.7 r 2.3 then Ok 0.5
  else if chained_lt 0.85 r 1.15 then Ok 1
  else Ok 0.5.
Proof.
  intros Hfl Tfl Tmax. unfold auto_distance_factor.
  rewrite Hfl, Tfl, Tmax. cbn [andb].
  rewrite py_div_truthy by exact Tfl. reflexivity.
Qed.

(** C1. With [fiber_length] and the maximum event distance both present and
    nonzero, and [r] their quotient, the calibrator returns 0.5 when
    [1.7 < r < 2.3], returns 1.0 when [0.85 < r < 1.15], and returns 0.5 when
    [r] is in neither band; it returns 0.5 as well when [fiber_length] is
    missing, when it is zero, when the maximum event distance is zero, and
    when there is no event. *)
Theorem auto_distance_factor_bands (blocks : Blocks) :
  let ke := key_events blocks in
  let max_ev := max_event_distance (events_of ke) in
  (forall fl,
      KeyEvents.fiber_length ke = Some fl ->
      truthy fl = true -> truthy max_ev = true ->
      (chained_lt 1.7 (max_ev / fl) 2.3 = true ->
       auto_distance_factor blocks = Ok 0.5) /\
      (chained_lt 0.85 (max_ev / fl) 1.15 = true ->
       auto_distance_factor blocks = Ok 1) /\
      (chained_lt 1.7 (max_ev / fl) 2.3 = false ->
       chained_lt 0.85 (max_ev / fl) 1.15 = false ->
       auto_distance_factor blocks = Ok 0.5)) /\
  (KeyEvents.fiber_length ke = None ->
   auto_distance_factor blocks = Ok 0.5) /\
  (forall fl,
      KeyEvents.fiber_length ke = Some fl -> truthy fl = false ->
      auto_distance_factor blocks = Ok 0.5) /\
  (truthy max_ev = false -> auto_distance_factor blocks = Ok 0.5) /\
  (events_of ke = [] -> auto_distance_factor blocks = Ok 0.5).
Proof.
  cbv zeta. repeat split.
  - intros Hband. rewrite (auto_distance_factor_ratio blocks fl) by assumption.
    cbv zeta. rewrite Hband. reflexivity.
  - intros Hband. rewrite (auto_distance_factor_ratio blocks fl) by assumption.
    cbv zeta. rewrite (bands_disjoint _ Hband), Hband. reflexivity.
  - intros Hout1 Hout2.
    rewrite (auto_distance_factor_ratio blocks fl) by assumption.
    cbv zeta. rewrite Hout1, Hout2. reflexivity.
  - intros Hfl. unfold auto_distance_factor. rewrite Hfl. reflexivity.
  - intros fl Hfl Tfl. unfold auto_distance_factor. rewrite Hfl, Tfl.
    reflexivity.
  - intros Tmax. unfold auto_distance_factor.
    destruct (KeyEvents.fiber_length (key_events blocks)); [|reflexivity].
    rewrite Tmax, andb_false_r. reflexivity.
  - intros Hnil. unfold auto_distance_factor. rewrite Hnil.
    destruct (KeyEvents.fiber_length (key_events blocks)); [|reflexivity].
    change (truthy (max_event_distance [])) with false.
    rewrite andb_false_r. reflexivity.
Qed.

(** The scenario of the specification (ratio 2.0) falls in the first band,
    the same events with a fibre length of 2000 (ratio 1.0) in the second. *)
Lemma auto_distance_factor_bands_witness :
  auto_distance_factor round_trip_blocks = Ok 0.5 /\
  auto_distance_factor one_way_blocks = Ok 1.
Proof.
  split.
  - pose proof (auto_distance_factor_bands round_trip_blocks) as H.
    cbv zeta in H. destruct H as [H _].
    destruct (H 1000 eq_refl eq_refl eq_refl) as [H1 _].
    apply H1. reflexivity.
  - pose proof (auto_distance_factor_bands one_way_blocks) as H.
    cbv zeta in H. destruct H as [H _].
    destruct (H 2000 eq_refl eq_refl eq_refl) as (_ & H2 & _).
    apply H2. reflexivity.
Defined.

(** Every row holds the raw distance of its event times the factor. *)
Lemma rows_from_distance f events : forall p c,
  Forall2 (fun e row =>
             Row.distance_m row = or0 (Event.distance_of_travel e) * f)
          events (rows_from f events p c).
Proof.
  induction events as [|e rest IH]; intros p c; cbn [rows_from];
    constructor; [reflexivity|apply IH].
Qed.

(** The calibrator never raises: it returns one of its two constants. *)
Lemma auto_distance_factor_cases (blocks : Blocks) :
  auto_distance_factor blocks = Ok 0.5 \/ auto_distance_factor blocks = Ok 1.
Proof.
  unfold auto_distance_factor.
  destruct (KeyEvents.fiber_length (key_events blocks)) as [fl|]; [|auto].
  destruct (truthy fl) eqn:Tfl; [|auto]. cbn [andb].
  destruct (truthy (max_event_distance _)); [|auto].
  rewrite py_div_truthy by exact Tfl. cbn [bind].
  destruct (chained_lt 1.7 _ 2.3); [auto|].
  destruct (chained_lt 0.85 _ 1.15); auto.
Qed.

(** C10. The calibrator returns exactly 0.5 or exactly 1.0, so that every
    calibrated distance of the table built with its factor is the raw
    distance of the event or the raw distance times 0.5. *)
Theorem auto_distance_factor_values (blocks : Blocks) :
  (auto_distance_factor blocks = Ok 0.5 \/
   auto_distance_factor blocks = Ok 1) /\
  exists factor rows,
    auto_distance_factor blocks = Ok factor /\
    extract_events_table blocks factor = Ok rows /\
    Forall2 (fun e row =>
               let raw := or0 (Event.distance_of_travel e) in
               Row.distance_m row = raw \/ Row.distance_m row = raw * 0.5)
            (events_of (key_events blocks)) rows.
Proof.
  pose proof (auto_distance_factor_cases blocks) as H.
  split; [exact H|].
  destruct H as [H|H]; rewrite H.
  - exists 0.5, (rows_from 0.5 (events_of (key_events blocks)) 0 0).
    split; [reflexivity|]. split; [apply extract_events_table_rows|].
    eapply Forall2_impl; [|apply rows_from_distance].
    cbv beta zeta. auto.
  - exists 1, (rows_from 1 (events_of (key_events blocks)) 0 0).
    split; [reflexivity|]. split; [apply extract_events_table_rows|].
    eapply Forall2_impl; [|apply rows_from_distance].
    cbv beta zeta. intros e row ->. left. apply mul_one.
Qed.

(** C7. The mode resolves to the factor before the builder runs: "twoway"
    gives 1.0 and the raw distances unscaled, "oneway" gives 0.5 and the raw
    distances times 0.5, both whatever the blocks hold; of the three modes
    only "auto" gives the factor of the calibrator, which does depend on the
    blocks. *)
Theorem main_distance_factor_modes (blocks : Blocks) :
  main_distance_factor "twoway" blocks = Ok 1 /\
  main_distance_factor "oneway" blocks = Ok 0.5 /\
  main_distance_factor "auto" blocks = auto_distance_factor blocks /\
  main_analysis "twoway" blocks =
    (rows <- extract_events_table blocks 1 ;;
     summary <- summarize blocks rows ;; Ok (1, rows, summary)) /\
  main_analysis "oneway" blocks =
    (rows <- extract_events_table blocks 0.5 ;;
     summary <- summarize blocks rows ;; Ok (0.5, rows, summary)) /\
  main_analysis "auto" blocks =
    (factor <- auto_distance_factor blocks ;;
     rows <- extract_events_table blocks factor ;;
     summary <- summarize blocks rows ;; Ok (factor, rows, summary)) /\
  (exists rows,
      extract_events_table blocks 1 = Ok rows /\
      Forall2 (fun e row =>
                 Row.distance_m row = or0 (Event.distance_of_travel e))
              (events_of (key_events blocks)) rows) /\
  (exists rows,
      extract_events_table blocks 0.5 = Ok rows /\
      Forall2 (fun e row =>
                 Row.distance_m row = or0 (Event.distance_of_travel e) * 0.5)
              (events_of (key_events blocks)) rows) /\
  Forall (fun mode =>
            mode = "auto"%string \/
            forall blocks', main_distance_factor mode blocks'
                            = main_distance_factor mode blocks)
         distance_choices /\
  main_distance_factor "auto" round_trip_blocks = Ok 0.5 /\
  main_distance_factor "auto" one_way_blocks = Ok 1.
Proof.
  assert (Hc : Forall (fun mode =>
                 mode = "auto"%string \/
                 forall blocks', main_distance_factor mode blocks'
                                 = main_distance_factor mode blocks)
               distance_choices).
  { repeat constructor; right; reflexivity. }
  repeat split; try exact Hc.
  - exists (rows_from 1 (events_of (key_events blocks)) 0 0).
    split; [apply extract_events_table_rows|].
    eapply Forall2_impl; [|apply rows_from_distance].
    cbv beta. intros e row ->. apply mul_one.
  - exists (rows_from 0.5 (events_of (key_events blocks)) 0 0).
    split; [apply extract_events_table_rows|apply rows_from_distance].
Qed.

(** * Event table builder *)

(** Row [i] of the table is the row of event [i], built from the carried
    distance and loss. *)
Lemma table_row_at f events i row :
  let rows := rows_from f events 0 0 in
  nth_error rows i = Some row ->
  exists e,
    nth_error events i = Some e /\
    row = event_row f (carried_distance rows i) (carried_loss rows i) e.
Proof.
  intros rows Hrow.
  destruct (rows_from_nth_inv _ _ _ _ _ _ Hrow) as [e He].
  exists e. split; [exact He|].
  pose proof (rows_from_nth f events 0 0 i e He) as H. cbv zeta in H.
  fold rows in H. rewrite Hrow in H. injection H as ->. reflexivity.
Qed.

(** The scenario of the specification, factor 0.5: distances 500 and 1000,
    relative distances 500 and 500, section losses -0.1 and -0.1, cumulative
    losses -0.05 and -0.05. *)
Example scenario_rows :
  exists row1 row2,
    extract_events_table round_trip_blocks 0.5 = Ok [row1; row2] /\
    (Row.distance_m row1, Row.rel_distance_m row1,
     Row.section_loss_db row1, Row.cumulative_loss_db row1)
    = (500, 500, -0.1, -0.05) /\
    (Row.distance_m row2, Row.rel_distance_m row2,
     Row.section_loss_db row2)
    = (1000, 500, -0.1) /\
    Row.cumulative_loss_db row2 = -0.05 + (0.1 + -0.1).
Proof.
  eexists _, _. split; [rewrite extract_events_table_rows; reflexivity|].
  repeat split.
Qed.

(** C2. The table satisfies the running-sum recurrence: the cumulative loss
    of row [i] is the cumulative loss of row [i-1] (0.0 before the first
    row) plus the sum of the event loss and the section loss of row [i], and
    the section loss of row [i] is its slope times its relative distance
    over 1000.0. *)
Theorem cumulative_loss_recurrence (blocks : Blocks) (factor : float) :
  exists rows,
    extract_events_table blocks factor = Ok rows /\
    forall i row,
      nth_error rows i = Some row ->
      Row.cumulative_loss_db row =
        carried_loss rows i
        + (Row.event_loss_db row + Row.section_loss_db row) /\
      Row.section_loss_db row =
        Row.slope_db_per_km row * (Row.rel_distance_m row / 1000).
Proof.
  exists (rows_from factor (events_of (key_events blocks)) 0 0).
  split; [apply extract_events_table_rows|].
  intros i row Hrow.
  destruct (table_row_at _ _ _ _ Hrow) as (e & _ & ->).
  split; reflexivity.
Qed.

(** The second row of the scenario of the specification. *)
Lemma cumulative_loss_recurrence_witness :
  exists rows row,
    extract_events_table round_trip_blocks 0.5 = Ok rows /\
    nth_error rows 1 = Some row /\
    carried_loss rows 1 = -0.05 /\
    Row.cumulative_loss_db row =
      carried_loss rows 1 + (Row.event_loss_db row + Row.section_loss_db row).
Proof.
  destruct (cumulative_loss_recurrence round_trip_blocks 0.5)
    as (rows & Hrows & H).
  rewrite extract_events_table_rows in Hrows. injection Hrows as <-.
  eexists _, _. split; [apply extract_events_table_rows|].
  split; [reflexivity|]. split; [reflexivity|].
  apply (H 1%nat). reflexivity.
Defined.

Lemma clamped_rel_below (d p : float) :
  (d <? p) = true -> clamped_rel d p = 0.
Proof.
  intros H. unfold clamped_rel. rewrite (sub_lt_zero _ _ H). reflexivity.
Qed.

(** C3. When the calibrated distance of an event is below the carried
    distance, its row has relative distance 0.0 and section loss 0.0 (the
    slope times 0.0, which equals 0.0 for every slope that is a real number,
    that is a finite float); the carried distance is advanced to the
    distance of that event all the same, and the relative distance of the
    following row is taken from it.  The carried distance is the variable
    [prev_dist_m] of the loop, as the loop holds it after [i] events. *)
Theorem clamp_and_resume (blocks : Blocks) (factor : float) :
  exists rows,
    extract_events_table blocks factor = Ok rows /\
    (forall i,
        (i <= length rows)%nat ->
        exists st,
          for_each (loop_body factor)
                   (firstn i (events_of (key_events blocks))) Loop.init
            = Ok st /\
          Loop.rows st = firstn i rows /\
          Loop.prev_dist_m st = carried_distance rows i) /\
    forall i row,
      nth_error rows i = Some row ->
      (Row.distance_m row <? carried_distance rows i) = true ->
      Row.rel_distance_m row = 0 /\
      Row.section_loss_db row = Row.slope_db_per_km row * 0 /\
      (is_finite (Row.slope_db_per_km row) = true ->
       (Row.section_loss_db row =? 0) = true) /\
      carried_distance rows (S i) = Row.distance_m row /\
      forall next,
        nth_error rows (S i) = Some next ->
        Row.rel_distance_m next =
          clamped_rel (Row.distance_m next) (Row.distance_m row).
Proof.
  set (events := events_of (key_events blocks)).
  exists (rows_from factor events 0 0).
  split; [apply extract_events_table_rows|]. split.
  - intros i Hi.
    destruct (loop_state_after factor events i Hi) as (st & H1 & H2 & H3 & _).
    exists st. auto.
  - intros i row Hrow Hlt.
    assert (Hnext : carried_distance (rows_from factor events 0 0) (S i)
                    = Row.distance_m row).
    { unfold carried_distance, before. rewrite Hrow. reflexivity. }
    destruct (table_row_at _ _ _ _ Hrow) as (e & _ & Erow).
    assert (Hrel : Row.rel_distance_m row = 0).
    { rewrite Erow in Hlt |- *. cbn [event_row Row.rel_distance_m Row.distance_m] in *.
      apply clamped_rel_below. exact Hlt. }
    assert (Hsec : Row.section_loss_db row = Row.slope_db_per_km row * 0).
    { change 0 with (0 / 1000) at 1. rewrite <- Hrel, Erow. reflexivity. }
    split; [exact Hrel|]. split; [exact Hsec|].
    split; [|split; [exact Hnext|]].
    + intros Hfin. rewrite Hsec. apply mul_zero_eqb. exact Hfin.
    + intros next Hn.
      destruct (table_row_at _ _ _ _ Hn) as (e' & _ & ->).
      rewrite Hnext. reflexivity.
Qed.

(** The regression sample: the second event (500) lies before the first
    (1000); its row is clamped, and the third row (700) is 200 past it. *)
Lemma clamp_and_resume_witness :
  exists rows row next,
    extract_events_table regression_blocks 1 = Ok rows /\
    nth_error rows 1 = Some row /\
    nth_error rows 2 = Some next /\
    Row.rel_distance_m row = 0 /\
    (Row.section_loss_db row =? 0) = true /\
    Row.rel_distance_m next = 200.
Proof.
  destruct (clamp_and_resume regression_blocks 1) as (rows & Hrows & _ & H).
  rewrite extract_events_table_rows in Hrows. injection Hrows as <-.
  eexists _, _, _. split; [apply extract_events_table_rows|].
  split; [reflexivity|]. split; [reflexivity|].
  destruct (H 1%nat _ eq_refl eq_refl) as (H1 & _ & H2 & _ & H3).
  split; [exact H1|]. split; [apply H2; reflexivity|].
  etransitivity; [exact (H3 _ eq_refl)|reflexivity].
Defined.

Lemma clamped_rel_not_below (d p : float) : (clamped_rel d p <? 0) = false.
Proof.
  unfold clamped_rel. destruct (d - p <? 0) eqn:E; [reflexivity|exact E].
Qed.

Lemma clamped_rel_finite (d p : float) :
  is_finite d = true -> is_finite p = true -> (0 <=? clamped_rel d p) = true.
Proof.
  intros Fd Fp. pose proof (sub_finite_not_nan d p Fd Fp) as Hn.
  unfold clamped_rel. destruct (d - p <? 0) eqn:E; [reflexivity|].
  apply not_neg_leb; assumption.
Qed.

(** The input of the counterexample to C6: under factor 4.0 both calibrated
    distances overflow to infinity, and the second relative distance,
    infinity minus infinity, is NaN, which is not at least 0.0. *)
Lemma rel_distance_nan_on_overflow :
  exists rows row,
    extract_events_table overflow_blocks 4 = Ok rows /\
    nth_error rows 1 = Some row /\
    Row.rel_distance_m row = nan /\
    (0 <=? Row.rel_distance_m row) = false.
Proof.
  eexists _, _. split; [apply extract_events_table_rows|].
  split; [reflexivity|]. split; reflexivity.
Qed.

(** C6, amended. No row has a relative distance below 0.0; the relative
    distance is at least 0.0 in every row where it is a number, and in all
    rows when every calibrated distance (raw distance times factor) is
    finite. *)
Theorem rel_distance_never_negative (blocks : Blocks) (factor : float) :
  exists rows,
    extract_events_table blocks factor = Ok rows /\
    Forall (fun row =>
              (Row.rel_distance_m row <? 0) = false /\
              (is_nan (Row.rel_distance_m row) = false ->
               (0 <=? Row.rel_distance_m row) = true)) rows /\
    (Forall (fun e =>
               is_finite (or0 (Event.distance_of_travel e) * factor) = true)
            (events_of (key_events blocks)) ->
     Forall (fun row => (0 <=? Row.rel_distance_m row) = true) rows).
Proof.
  set (events := events_of (key_events blocks)).
  set (rows := rows_from factor events 0 0).
  assert (Hdist : forall i row,
             nth_error rows i = Some row ->
             exists e, In e events /\
               Row.distance_m row
               = or0 (Event.distance_of_travel e) * factor /\
               Row.rel_distance_m row
               = clamped_rel (Row.distance_m row) (carried_distance rows i)).
  { intros i row Hrow.
    destruct (table_row_at _ _ _ _ Hrow) as (e & He & ->).
    exists e. split; [eapply nth_error_In; exact He|]. split; reflexivity. }
  exists rows. split; [apply extract_events_table_rows|]. split.
  - apply Forall_forall. intros row Hin.
    apply In_nth_error in Hin as [i Hrow].
    destruct (Hdist i row Hrow) as (e & _ & _ & ->).
    split; [apply clamped_rel_not_below|].
    apply not_neg_leb, clamped_rel_not_below.
  - intros Hfin. rewrite Forall_forall in Hfin.
    apply Forall_forall. intros row Hin.
    apply In_nth_error in Hin as [i Hrow].
    destruct (Hdist i row Hrow) as (e & He & Hd & ->).
    apply clamped_rel_finite.
    + rewrite Hd. apply Hfin, He.
    + destruct i as [|j]; [reflexivity|].
      unfold carried_distance, before.
      destruct (nth_error rows j) as [r|] eqn:Hj; [|reflexivity].
      destruct (Hdist j r Hj) as (e' & He' & Hd' & _).
      rewrite Hd'. apply Hfin, He'.
Qed.

(** In the scenario of the specification every calibrated distance is
    finite, and both relative distances are at least 0.0. *)
Lemma rel_distance_never_negative_witness :
  exists rows,
    extract_events_table round_trip_blocks 0.5 = Ok rows /\
    Forall (fun row => (0 <=? Row.rel_distance_m row) = true) rows.
Proof.
  destruct (rel_distance_never_negative round_trip_blocks 0.5)
    as (rows & Hrows & _ & H).
  exists rows. split; [exact Hrows|].
  apply H. repeat constructor.
Defined.

Lemma rows_from_of_event f events : forall p c,
  Forall2 (row_of_event f) events (rows_from f events p c).
Proof.
  induction events as [|e rest IH]; intros p c; cbn [rows_from];
    constructor; [|apply IH].
  unfold row_of_event, event_row. cbn.
  destruct (Event.event_type_details e); repeat split; reflexivity.
Qed.

Lemma rows_from_keys f events : forall p c,
  Forall (fun row => row_keys row = row_field_names) (rows_from f events p c).
Proof.
  induction events as [|e rest IH]; intros p c; cbn [rows_from];
    constructor; [reflexivity|apply IH].
Qed.

(** The input of the counterexample to C9: the rows of the scenario of the
    specification have no key [reflection_loss], nor the keys
    [distance_of_travel], [slope], [splice_loss] and [event_type_details] of
    the event. *)
Lemma row_lacks_reflection_loss :
  exists rows,
    extract_events_table round_trip_blocks 0.5 = Ok rows /\
    length rows = 2%nat /\
    Forall (fun row =>
              forallb (fun key => negb (existsb (String.eqb key) (row_keys row)))
                      [ "reflection_loss"; "distance_of_travel"; "slope";
                        "splice_loss"; "event_type_details" ]%string
              = true) rows.
Proof.
  eexists. split; [apply extract_events_table_rows|].
  split; [reflexivity|]. repeat constructor.
Qed.

(** C9, amended. The builder emits one row per event, in the order of the
    events; the row of an event holds its [event_number], [event_type] and
    [comment], its calibrated distance and its losses, and the reflection
    loss of the event under the key [reflectance_db]; every row has the
    same twelve keys in the same order, [reflection_loss] not being one of
    them. *)
Theorem one_row_per_event (blocks : Blocks) (factor : float) :
  exists rows,
    extract_events_table blocks factor = Ok rows /\
    length rows = length (events_of (key_events blocks)) /\
    Forall2 (row_of_event factor) (events_of (key_events blocks)) rows /\
    Forall (fun row => row_keys row = row_field_names) rows /\
    existsb (String.eqb "reflection_loss") row_field_names = false /\
    existsb (String.eqb "reflectance_db") row_field_names = true.
Proof.
  exists (rows_from factor (events_of (key_events blocks)) 0 0).
  split; [apply extract_events_table_rows|].
  split; [apply rows_from_length|].
  split; [apply rows_from_of_event|].
  split; [apply rows_from_keys|]. split; reflexivity.
Qed.

(** * Summary aggregator *)

Lemma py_last_cons {A : Type} (x : A) (xs : list A) (d : A) :
  py_last (x :: xs) = Ok (last (x :: xs) d).
Proof.
  unfold py_last.
  assert (Hne : x :: xs <> []) by discriminate.
  rewrite (app_removelast_last d Hne) at 1.
  rewrite rev_app_distr. reflexivity.
Qed.

Lemma last_map_cons {A B : Type} (f : A -> B) (xs : list A) :
  forall x d d', last (map f (x :: xs)) d = f (last (x :: xs) d').
Proof.
  induction xs as [|y xs IH]; intros x d d'; [reflexivity|].
  change (last (map f (x :: y :: xs)) d) with (last (map f (y :: xs)) d).
  change (last (x :: y :: xs) d') with (last (y :: xs) d').
  apply IH.
Qed.

(** A float above zero is not equal to zero. *)
Lemma above_zero_truthy (x : float) : (0 <? x) = true -> truthy x = true.
Proof.
  unfold truthy. rewrite ltb_spec, FloatAxioms.eqb_spec.
  change (Prim2SF 0) with (S754_zero false).
  destruct (Prim2SF x) as [s|s| |s m e]; try destruct s; cbn; congruence.
Qed.

(** A float equal to zero is not above zero. *)
Lemma zero_not_above (x : float) : (x =? 0) = true -> (0 <? x) = false.
Proof.
  intros H. destruct (0 <? x) eqn:E; [|reflexivity].
  apply above_zero_truthy in E. unfold truthy in E. rewrite H in E.
  discriminate.
Qed.

(** The summary, field by field; [summarize] never raises. *)
Lemma summarize_ok blocks rows :
  let ke := key_events blocks in
  let m := match rows with
           | [] => 0
           | r :: rest => max_from (Row.distance_m r) (map Row.distance_m rest)
           end in
  let t := match KeyEvents.total_loss ke with
           | Some t => t
           | None => last (map Row.cumulative_loss_db rows) 0
           end in
  summarize blocks rows =
  Ok {| Summary.fiber_length_m := m;
        Summary.fiber_length_km := m / 1000;
        Summary.total_loss_db := t;
        Summary.avg_att_db_per_km :=
          if 0 <? m / 1000 then Some (t / (m / 1000)) else None;
        Summary.optical_return_loss_db := KeyEvents.optical_return_loss ke |}.
Proof.
  intros ke m t. unfold summarize. fold ke.
  assert (Hm : match rows with
               | [] => Ok 0
               | _ :: _ => py_max (map Row.distance_m rows)
               end = Ok m) by (destruct rows; reflexivity).
  assert (Ht : match KeyEvents.total_loss ke with
               | None =>
                   match rows with
                   | [] => Ok 0
                   | _ :: _ =>
                       last <- py_last rows ;; Ok (Row.cumulative_loss_db last)
                   end
               | Some t => Ok t
               end = Ok t).
  { subst t. destruct (KeyEvents.total_loss ke); [reflexivity|].
    destruct rows as [|r rest]; [reflexivity|].
    rewrite (py_last_cons r rest r). cbn [bind].
    f_equal. symmetry. apply last_map_cons. }
  rewrite Hm, Ht. cbn [bind]. rewrite py_div_1000. cbn [bind].
  destruct (0 <? m / 1000) eqn:Hkm; cbn [bind]; [|reflexivity].
  rewrite py_div_truthy by (apply above_zero_truthy; exact Hkm).
  reflexivity.
Qed.

(** C4. The total loss of the summary is [KeyEvents.total_loss] itself
    whenever that field is present, whatever the rows hold; it is otherwise
    the cumulative loss of the last row, or 0.0 without rows. *)
Theorem total_loss_prefers_reported (blocks : Blocks) (rows : list Row.t) :
  exists s,
    summarize blocks rows = Ok s /\
    match KeyEvents.total_loss (key_events blocks) with
    | Some t => Summary.total_loss_db s = t
    | None =>
        Summary.total_loss_db s
        = match rows with
          | [] => 0
          | _ :: _ => last (map Row.cumulative_loss_db rows) 0
          end
    end.
Proof.
  eexists. split; [apply summarize_ok|].
  cbn [Summary.total_loss_db].
  destruct (KeyEvents.total_loss (key_events blocks)); [reflexivity|].
  destruct rows; reflexivity.
Qed.

(** The scenario with a reported total loss of 12.5: the summary holds
    12.5, the rows end on another cumulative loss. *)
Lemma total_loss_reported_sample :
  exists rows s,
    extract_events_table reported_blocks 0.5 = Ok rows /\
    summarize reported_blocks rows = Ok s /\
    Summary.total_loss_db s = 12.5 /\
    last (map Row.cumulative_loss_db rows) 0 = -0.050000000000000003.
Proof.
  eexists _, _. split; [apply extract_events_table_rows|].
  split; [apply summarize_ok|]. split; reflexivity.
Qed.

(** The input of the counterexample to C5: one event at raw distance -2000
    under factor 0.5.  The fibre length is -1 km, which is not 0, and the
    average attenuation is null all the same. *)
Lemma avg_att_null_on_negative_length :
  exists rows s,
    extract_events_table negative_blocks 0.5 = Ok rows /\
    summarize negative_blocks rows = Ok s /\
    Summary.fiber_length_km s = -1 /\
    (Summary.fiber_length_km s =? 0) = false /\
    Summary.avg_att_db_per_km s = None.
Proof.
  eexists _, _. split; [apply extract_events_table_rows|].
  split; [apply summarize_ok|]. repeat split; reflexivity.
Qed.

(** C5, amended. The fibre length in km is the fibre length in m over
    1000.0; the average attenuation is the total loss over the fibre length
    in km when that length is above 0, and null otherwise, in particular
    when it equals 0. *)
Theorem avg_att_guarded (blocks : Blocks) (rows : list Row.t) :
  exists s,
    summarize blocks rows = Ok s /\
    Summary.fiber_length_km s = Summary.fiber_length_m s / 1000 /\
    Summary.avg_att_db_per_km s =
      (if 0 <? Summary.fiber_length_km s
       then Some (Summary.total_loss_db s / Summary.fiber_length_km s)
       else None) /\
    ((Summary.fiber_length_km s =? 0) = true ->
     Summary.avg_att_db_per_km s = None).
Proof.
  eexists. split; [apply summarize_ok|].
  cbn [Summary.fiber_length_km Summary.fiber_length_m
       Summary.avg_att_db_per_km Summary.total_loss_db].
  split; [reflexivity|]. split; [reflexivity|].
  intros Hz. rewrite (zero_not_above _ Hz). reflexivity.
Qed.

(** Without rows the fibre length is 0 km and the average is null. *)
Lemma avg_att_guarded_witness :
  exists s,
    summarize round_trip_blocks [] = Ok s /\
    Summary.avg_att_db_per_km s = None.
Proof.
  destruct (avg_att_guarded round_trip_blocks []) as (s & Hs & _ & _ & H).
  exists s. split; [exact Hs|].
  apply H. rewrite summarize_ok in Hs. injection Hs as <-. reflexivity.
Defined.

(** * Totality *)

Lemma or0_idempotent (v : option float) : or0 (Some (or0 v)) = or0 v.
Proof.
  destruct v as [x|]; [|reflexivity]. cbn [or0].
  destruct (truthy x) eqn:T; [rewrite T|]; reflexivity.
Qed.

Lemma event_row_fill f p c e :
  event_row f p c (fill_event e) = event_row f p c e.
Proof.
  unfold event_row, fill_event.
  cbn [Event.event_number Event.distance_of_travel Event.slope
       Event.splice_loss Event.reflection_loss Event.event_type
       Event.event_type_details Event.comment].
  rewrite !or0_idempotent. reflexivity.
Qed.

Lemma rows_from_fill f events : forall p c,
  rows_from f (map fill_event events) p c = rows_from f events p c.
Proof.
  induction events as [|e rest IH]; intros p c; [reflexivity|].
  cbn [map rows_from]. rewrite event_row_fill, IH. reflexivity.
Qed.

Lemma max_event_distance_fill events :
  max_event_distance (map fill_event events) = max_event_distance events.
Proof.
  unfold max_event_distance. rewrite map_map. f_equal.
  apply map_ext. intros e. apply or0_idempotent.
Qed.

(** C8. On blocks of the documented shape each of the three components
    returns a result and raises nothing; a missing block, a missing event
    list and a missing numeric field of an event read as the empty mapping,
    the empty list and 0.0; with nothing to read the summary is made of
    zeros and nulls, and a missing optical return loss stays null. *)
Theorem core_is_total (blocks : Blocks) (factor : float)
    (rows : list Row.t) :
  (exists f, auto_distance_factor blocks = Ok f) /\
  (exists table, extract_events_table blocks factor = Ok table) /\
  (exists s,
      summarize blocks rows = Ok s /\
      Summary.optical_return_loss_db s
      = KeyEvents.optical_return_loss (key_events blocks)) /\
  auto_distance_factor (fill_blocks blocks) = auto_distance_factor blocks /\
  extract_events_table (fill_blocks blocks) factor
  = extract_events_table blocks factor /\
  summarize (fill_blocks blocks) rows = summarize blocks rows /\
  auto_distance_factor {| KeyEvents_block := None |} = Ok 0.5 /\
  extract_events_table {| KeyEvents_block := None |} factor = Ok [] /\
  summarize {| KeyEvents_block := None |} [] =
    Ok {| Summary.fiber_length_m := 0;
          Summary.fiber_length_km := 0;
          Summary.total_loss_db := 0;
          Summary.avg_att_db_per_km := None;
          Summary.optical_return_loss_db := None |}.
Proof.
  split; [destruct (auto_distance_factor_cases blocks); eauto|].
  split; [eexists; apply extract_events_table_rows|].
  split; [eexists; split; [apply summarize_ok|reflexivity]|].
  split.
  { unfold auto_distance_factor, fill_blocks.
    cbn [key_events KeyEvents_block events_of KeyEvents.events
         KeyEvents.fiber_length].
    rewrite max_event_distance_fill. reflexivity. }
  split.
  { rewrite !extract_events_table_rows. unfold fill_blocks.
    cbn [key_events KeyEvents_block events_of KeyEvents.events].
    rewrite rows_from_fill. reflexivity. }
  repeat split.
Qed.

(** * More facts of binary64 arithmetic *)

Section Binary64Order.

Local Open Scope Z_scope.

Ltac cmp_cases :=
  repeat match goal with
  | |- context [(?a ?= ?b)%Z] => destruct (Z.compare_spec a b)
  | |- context [Pos.compare_cont Eq ?a ?b] =>
      change (Pos.compare_cont Eq a b) with (Pos.compare a b);
      destruct (Pos.compare_spec a b)
  end; cbn; try congruence; try lia.

Lemma SFcompare_Gt_Lt x y :
  SFcompare x y = Some Gt -> SFcompare y x = Some Lt.
Proof.
  destruct x as [sx|sx| |sx mx ex], y as [sy|sy| |sy my ey];
    try (destruct sx); try (destruct sy); cbn; try congruence; cmp_cases.
Qed.

Lemma SFcompare_finite_Eq s1 m1 e1 s2 m2 e2 :
  SFcompare (S754_finite s1 m1 e1) (S754_finite s2 m2 e2) = Some Eq ->
  s1 = s2 /\ m1 = m2 /\ e1 = e2.
Proof.
  destruct s1, s2; cbn; try congruence; cmp_cases; auto.
Qed.

(** The difference of two valid values is below zero only if the first is
    below the second. *)
Lemma SFsub_lt_zero_inv x y :
  valid_binary x = true -> valid_binary y = true ->
  SFltb (SF64sub x y) (S754_zero false) = true -> SFltb x y = true.
Proof.
  intros Vx Vy.
  destruct x as [sx|sx| |sx mx ex], y as [sy|sy| |sy my ey];
    try (destruct sx); try (destruct sy);
    try (cbn; congruence).
  all: intros Hsub; unfold SFltb;
       destruct (SFcompare _ _) as [[]|] eqn:Hc; try reflexivity;
       try (cbn in Hc; congruence); exfalso.
  all: pose proof Vx as Vx'; pose proof Vy as Vy';
       apply valid_finite in Vx' as (Hx & _);
       apply valid_finite in Vy' as (Hy & _).
  all: unfold SF64sub, SFsub in Hsub.
  all: try (apply SFcompare_finite_Eq in Hc as (_ & -> & ->);
            rewrite Z.sub_diag in Hsub; cbn in Hsub; congruence).
  all: apply SFcompare_Gt_Lt in Hc;
       pose proof (SFcompare_finite_Lt _ _ _ _ _ _ Vy Vx Hc) as Hlt;
       rewrite (Z.min_comm ey ex) in Hlt.
  all: match type of Hsub with
       | context [binary_normalize _ _ ?d ?e _] =>
           pose proof (binary_normalize_sign d e ltac:(lia)) as Hs;
           remember d as diff eqn:Hd; destruct diff; try lia;
           destruct (binary_normalize prec emax _ _ false) as [s|s| |s m e'];
           cbn in Hs, Hsub; try contradiction; subst; congruence
       end.
Qed.

Lemma SFleb_not_gt x y : SFleb x y = true -> SFltb y x = false.
Proof.
  unfold SFleb, SFltb.
  destruct x as [sx|sx| |sx mx ex], y as [sy|sy| |sy my ey];
    try (destruct sx); try (destruct sy); cbn; try congruence; cmp_cases.
Qed.

End Binary64Order.

(** The clamp fires only when the distance is smaller. *)
Lemma sub_lt_zero_inv (x y : float) : (x - y <? 0) = true -> (x <? y) = true.
Proof.
  rewrite !ltb_spec, sub_spec. change (Prim2SF 0) with (S754_zero false).
  apply SFsub_lt_zero_inv; apply Prim2SF_valid.
Qed.

(** Only numbers are ordered. *)
Lemma leb_numbers (x y : float) :
  (x <=? y) = true -> is_nan x = false /\ is_nan y = false.
Proof.
  unfold is_nan. rewrite leb_spec, !FloatAxioms.eqb_spec. unfold SFleb, SFeqb.
  destruct (Prim2SF x) as [sx|sx| |sx mx ex], (Prim2SF y) as [sy|sy| |sy my ey];
    cbn; try congruence; intros _;
    rewrite ?Z.compare_refl;
    repeat match goal with
    | |- context [Pos.compare_cont Eq ?m ?m] =>
        change (Pos.compare_cont Eq m m) with (Pos.compare m m);
        rewrite Pos.compare_refl
    end;
    try (destruct sx); try (destruct sy); auto.
Qed.

(** At most and not below is equal. *)
Lemma leb_not_ltb_eqb (x y : float) :
  (x <=? y) = true -> (x <? y) = false -> (x =? y) = true.
Proof.
  rewrite leb_spec, ltb_spec, FloatAxioms.eqb_spec. unfold SFleb, SFltb, SFeqb.
  destruct (SFcompare _ _) as [[]|]; congruence.
Qed.

(** * More on the event table *)

(** The clamp is the comparison of the two distances. *)
Lemma clamped_rel_order (d p : float) :
  clamped_rel d p = if d <? p then 0 else d - p.
Proof.
  unfold clamped_rel. destruct (d <? p) eqn:E.
  - rewrite (sub_lt_zero _ _ E). reflexivity.
  - destruct (d - p <? 0) eqn:E'; [|reflexivity].
    apply sub_lt_zero_inv in E'. congruence.
Qed.

Lemma table_rel_by_order f events i row :
  let rows := rows_from f events 0 0 in
  nth_error rows i = Some row ->
  Row.rel_distance_m row =
    if Row.distance_m row <? carried_distance rows i then 0
    else Row.distance_m row - carried_distance rows i.
Proof.
  intros rows Hrow.
  destruct (table_row_at _ _ _ _ Hrow) as (e & _ & Erow).
  rewrite <- clamped_rel_order. rewrite Erow. reflexivity.
Qed.

(** X1. In every row the relative distance is 0.0 when the distance of the
    row is below the distance carried from the row before, and is their
    float difference in every other case: the test of the source on the
    sign of the difference is the comparison of the two distances. *)
Theorem rel_distance_by_order (blocks : Blocks) (factor : float) :
  exists rows,
    extract_events_table blocks factor = Ok rows /\
    forall i row,
      nth_error rows i = Some row ->
      Row.rel_distance_m row =
        if Row.distance_m row <? carried_distance rows i then 0
        else Row.distance_m row - carried_distance rows i.
Proof.
  exists (rows_from factor (events_of (key_events blocks)) 0 0).
  split; [apply extract_events_table_rows|].
  intros i row Hrow. apply table_rel_by_order. exact Hrow.
Qed.

(** The regression sample under factor 1.0: row 1 (500 after 1000) is
    clamped, row 2 (700 after 500) holds the difference 200. *)
Lemma rel_distance_by_order_witness :
  exists rows row1 row2,
    extract_events_table regression_blocks 1 = Ok rows /\
    nth_error rows 1 = Some row1 /\ nth_error rows 2 = Some row2 /\
    Row.rel_distance_m row1 = 0 /\ Row.rel_distance_m row2 = 200.
Proof.
  destruct (rel_distance_by_order regression_blocks 1) as (rows & Hrows & H).
  rewrite extract_events_table_rows in Hrows. injection Hrows as <-.
  eexists _, _, _. split; [apply extract_events_table_rows|].
  split; [reflexivity|]. split; [reflexivity|]. split.
  - etransitivity; [exact (H 1%nat _ eq_refl)|reflexivity].
  - etransitivity; [exact (H 2%nat _ eq_refl)|reflexivity].
Defined.

Lemma rows_from_app f events : forall more p c,
  rows_from f (events ++ more) p c =
  rows_from f events p c
  ++ rows_from f more
       (last (map Row.distance_m (rows_from f events p c)) p)
       (last (map Row.cumulative_loss_db (rows_from f events p c)) c).
Proof.
  induction events as [|e rest IH]; intros more p c; [reflexivity|].
  cbn [app rows_from map]. rewrite IH, !last_cons_start. reflexivity.
Qed.

(** X2. The rows of the events already seen do not depend on the events
    that follow: when the events of one input extend the events of another,
    the table of the first is the beginning of the table of the second,
    which goes on with one row per further event. *)
Theorem table_of_prefix (blocks blocks' : Blocks) (factor : float)
    (more : list Event.t) :
  events_of (key_events blocks')
  = events_of (key_events blocks) ++ more ->
  exists rows later,
    extract_events_table blocks factor = Ok rows /\
    extract_events_table blocks' factor = Ok (rows ++ later) /\
    length later = length more.
Proof.
  intros Hev. rewrite !extract_events_table_rows, Hev, rows_from_app.
  eexists _, _. split; [reflexivity|]. split; [reflexivity|].
  apply rows_from_length.
Qed.

(** The scenario of the specification followed by a third event. *)
Lemma table_of_prefix_witness :
  exists rows later,
    extract_events_table round_trip_blocks 0.5 = Ok rows /\
    extract_events_table
      (sample_blocks (Some 1000) None
         [sample_event 1000 (-0.2) 0.05 (-40);
          sample_event 2000 (-0.2) 0.1 (-35); sample_event 700 1 1 1])
      0.5 = Ok (rows ++ later) /\
    length later = 1%nat.
Proof.
  exact (table_of_prefix round_trip_blocks
           (sample_blocks (Some 1000) None
              [sample_event 1000 (-0.2) 0.05 (-40);
               sample_event 2000 (-0.2) 0.1 (-35); sample_event 700 1 1 1])
           0.5 [sample_event 700 1 1 1] eq_refl).
Defined.

(** At most is not above. *)
Lemma leb_not_gt (x y : float) : (x <=? y) = true -> (y <? x) = false.
Proof. rewrite leb_spec, ltb_spec. apply SFleb_not_gt. Qed.

Lemma nondecreasing_before (rows : list Row.t) : forall start i row,
  nondecreasing start (map Row.distance_m rows) = true ->
  nth_error rows i = Some row ->
  (before Row.distance_m start rows i <=? Row.distance_m row) = true.
Proof.
  induction rows as [|r rest IH]; intros start i row Hs Hrow;
    [destruct i; discriminate|].
  cbn [map nondecreasing] in Hs. apply andb_prop in Hs as [H1 H2].
  destruct i as [|j]; cbn [nth_error] in Hrow.
  - injection Hrow as <-. exact H1.
  - assert (Hj : (j < length rest)%nat) by (apply nth_error_Some; congruence).
    rewrite before_cons by lia. apply IH; assumption.
Qed.

(** X3. When the calibrated distances of the table never decrease, starting
    from 0.0, no row is clamped: every relative distance is the float
    difference between the distance of the row and the distance of the row
    before (0.0 before the first row). *)
Theorem ordered_table_is_not_clamped (blocks : Blocks) (factor : float) :
  exists rows,
    extract_events_table blocks factor = Ok rows /\
    (nondecreasing 0 (map Row.distance_m rows) = true ->
     forall i row,
       nth_error rows i = Some row ->
       Row.rel_distance_m row
       = Row.distance_m row - carried_distance rows i).
Proof.
  set (rows := rows_from factor (events_of (key_events blocks)) 0 0).
  exists rows. split; [apply extract_events_table_rows|].
  intros Hs i row Hrow.
  rewrite (table_rel_by_order _ _ _ _ Hrow). fold rows.
  assert (Hle : (carried_distance rows i <=? Row.distance_m row) = true)
    by (apply nondecreasing_before; assumption).
  rewrite (leb_not_gt _ _ Hle). reflexivity.
Qed.

(** The scenario of the specification: 500 then 1000, never decreasing. *)
Lemma ordered_table_is_not_clamped_witness :
  exists rows row,
    extract_events_table round_trip_blocks 0.5 = Ok rows /\
    nth_error rows 1 = Some row /\
    Row.rel_distance_m row = 1000 - 500.
Proof.
  destruct (ordered_table_is_not_clamped round_trip_blocks 0.5)
    as (rows & Hrows & H).
  rewrite extract_events_table_rows in Hrows. injection Hrows as <-.
  eexists _, _. split; [apply extract_events_table_rows|].
  split; [reflexivity|].
  etransitivity; [exact (H eq_refl 1%nat _ eq_refl)|reflexivity].
Defined.

(** * More on the summary *)

Lemma eqb_refl_number (x : float) : is_nan x = false -> (x =? x) = true.
Proof. unfold is_nan. intros H. apply negb_false_iff in H. exact H. Qed.

(** On floats that never decrease the scan of [max] ends on a float equal
    to the last one. *)
Lemma max_from_sorted (xs : list float) : forall best,
  is_nan best = false ->
  nondecreasing best xs = true ->
  (max_from best xs =? last xs best) = true.
Proof.
  induction xs as [|x rest IH]; intros best Nb Hs.
  - apply eqb_refl_number. exact Nb.
  - cbn [nondecreasing] in Hs. apply andb_prop in Hs as [Hbx Hrest].
    destruct (leb_numbers _ _ Hbx) as [_ Nx].
    rewrite last_cons_start. cbn [max_from].
    destruct (best <? x) eqn:E; [apply IH; assumption|].
    pose proof (leb_not_ltb_eqb _ _ Hbx E) as Heq.
    destruct rest as [|y rest']; [exact Heq|].
    assert (Hs' : nondecreasing best (y :: rest') = true).
    { cbn [nondecreasing] in Hrest |- *.
      apply andb_prop in Hrest as [Hxy Hr]. rewrite Hr, andb_true_r.
      eapply leb_trans; eassumption. }
    specialize (IH best Nb Hs').
    rewrite last_cons_start in IH |- *. exact IH.
Qed.

(** X4. The fibre length of the summary is 0.0 without rows; with rows it
    is the distance of one of the rows, and at least the distance of every
    row when no distance is NaN. *)
Theorem fiber_length_is_greatest (blocks : Blocks) (rows : list Row.t) :
  exists s,
    summarize blocks rows = Ok s /\
    match rows with
    | [] => Summary.fiber_length_m s = 0
    | _ :: _ =>
        (exists r, In r rows /\ Summary.fiber_length_m s = Row.distance_m r) /\
        (Forall (fun r => is_nan (Row.distance_m r) = false) rows ->
         Forall (fun r =>
                   (Row.distance_m r <=? Summary.fiber_length_m s) = true)
                rows)
    end.
Proof.
  eexists. split; [apply summarize_ok|]. cbn [Summary.fiber_length_m].
  destruct rows as [|r0 rest]; [reflexivity|]. split.
  - pose proof (max_from_in (map Row.distance_m rest) (Row.distance_m r0)) as H.
    change (Row.distance_m r0 :: map Row.distance_m rest)
      with (map Row.distance_m (r0 :: rest)) in H.
    apply in_map_iff in H as (r & Hr & Hin). exists r. auto.
  - intros Hn.
    assert (Hn' : Forall (fun x => is_nan x = false)
                    (Row.distance_m r0 :: map Row.distance_m rest)).
    { change (Row.distance_m r0 :: map Row.distance_m rest)
        with (map Row.distance_m (r0 :: rest)).
      apply Forall_map. exact Hn. }
    pose proof (max_from_upper _ _ Hn') as H.
    change (Row.distance_m r0 :: map Row.distance_m rest)
      with (map Row.distance_m (r0 :: rest)) in H.
    apply Forall_map in H. exact H.
Qed.

(** The regression sample: distances 1000, 500, 700; the fibre length is
    1000, the distance of the first row. *)
Lemma fiber_length_is_greatest_witness :
  exists rows s,
    extract_events_table regression_blocks 1 = Ok rows /\
    summarize regression_blocks rows = Ok s /\
    Summary.fiber_length_m s = 1000 /\
    Forall (fun r => (Row.distance_m r <=? Summary.fiber_length_m s) = true)
           rows.
Proof.
  eexists (rows_from 1 (events_of (key_events regression_blocks)) 0 0).
  destruct (fiber_length_is_greatest regression_blocks
              (rows_from 1 (events_of (key_events regression_blocks)) 0 0))
    as (s & Hs & H).
  exists s. split; [apply extract_events_table_rows|].
  split; [exact Hs|]. split.
  - rewrite summarize_ok in Hs. injection Hs as <-. reflexivity.
  - apply H. repeat constructor.
Defined.

(** X5. For rows whose distances are numbers that never decrease, the
    fibre length of the summary equals the distance of the last row. *)
Theorem fiber_length_of_ordered_rows (blocks : Blocks) (first : Row.t)
    (rest : list Row.t) :
  nondecreasing (Row.distance_m first)
                (map Row.distance_m (first :: rest)) = true ->
  exists s,
    summarize blocks (first :: rest) = Ok s /\
    (Summary.fiber_length_m s
     =? Row.distance_m (last (first :: rest) first)) = true.
Proof.
  intros Hs. eexists. split; [apply summarize_ok|].
  cbn [Summary.fiber_length_m].
  cbn [map nondecreasing] in Hs. apply andb_prop in Hs as [H0 Hs].
  destruct (leb_numbers _ _ H0) as [N0 _].
  pose proof (max_from_sorted _ _ N0 Hs) as H.
  rewrite last_cons_start.
  replace (Row.distance_m (last rest first))
    with (last (map Row.distance_m rest) (Row.distance_m first)); [exact H|].
  clear. generalize first. induction rest as [|r rest IH]; intros d; [reflexivity|].
  cbn [map]. rewrite !last_cons_start. apply IH.
Qed.

(** The scenario of the specification: the fibre length is 1000, the
    distance of the second and last row. *)
Lemma fiber_length_of_ordered_rows_witness :
  exists s,
    summarize round_trip_blocks
      (rows_from 0.5 (events_of (key_events round_trip_blocks)) 0 0) = Ok s /\
    (Summary.fiber_length_m s =? 1000) = true.
Proof.
  exact (fiber_length_of_ordered_rows round_trip_blocks
           (event_row 0.5 0 0 (sample_event 1000 (-0.2) 0.05 (-40)))
           [event_row 0.5 500 (-0.05) (sample_event 2000 (-0.2) 0.1 (-35))]
           eq_refl).
Defined.

(** * CSV export *)




Lemma cells_under_row (r : Row.t) :
  cells_under row_field_names (row_items r) = row_cells r.
Proof. reflexivity. Qed.




(** * Trace plot *)




(** * The report of [main] *)










(** * The distance the calibrator compares *)

(** The scenario of the specification: the maximum is 2000, the distance
    of the second event. *)
Lemma max_event_distance_greatest_witness :
  max_event_distance (events_of (key_events round_trip_blocks)) = 2000 /\
  Forall (fun e =>
            (or0 (Event.distance_of_travel e)
             <=? max_event_distance (events_of (key_events round_trip_blocks)))
            = true)
         (events_of (key_events round_trip_blocks)).
Proof.
  destruct (max_event_distance_greatest
              (events_of (key_events round_trip_blocks)))
    as [_ H]; [discriminate|repeat constructor|].
  split; [reflexivity|exact H].
Defined.
